(** * The esphome runtime registry (homeassistant/components/esphome/domain_data.py)

    A shallow embedding of [DomainData], the object that holds the global
    esphome data in [hass.data[DOMAIN]], with the properties of its entry
    data, its stores and its two GATT caches.

    Python values are references: a mutable object lives in an object store
    and is named by its address.  Methods are written in state-passing
    style; a method that can raise returns a [result]. *)

From stdpp Require Import gmap strings list.

(** ** Python values, exceptions *)

(** The identity of an object ([id(x)]); [is] is equality of references. *)
Abbreviation ref := nat.

Inductive exn :=
| KeyError (key : string)
| ValueError (msg : string)
| AttributeError (attr : string).

Inductive result (A : Type) :=
| Return (a : A)
| Raise (e : exn).
Arguments Return {A} a.
Arguments Raise {A} e.

(** ** The bounded container [lru.LRU] *)
Module LRU.
Section lru.
Context {V : Type}.

(** Modelled from the spec: the container [LRU] of the package [lru] is not
    in the repository.  It is a fixed-capacity mapping with get,
    set-with-eviction and remove, which discards the item that has gone the
    longest without being accessed when its capacity is exceeded.  The items
    are kept in order of use, the most recently used first; a lookup that
    hits and an assignment are uses. *)
Record t := mk { size : nat; items : list (Z * V) }.

(** [LRU(size)]: an empty container. *)
Definition new (n : nat) : t := mk n [].

(** The value stored under [k]. *)
Fixpoint find (k : Z) (l : list (Z * V)) : option V :=
  match l with
  | [] => None
  | (k', v) :: l' => if bool_decide (k' = k) then Some v else find k l'
  end.

(** Unlink the node of [k] from the recency list. *)
Definition remove (k : Z) (l : list (Z * V)) : list (Z * V) :=
  filter (λ p, p.1 ≠ k) l.

(** Drop the least recently used item, the last of the list. *)
Definition delete_last (l : list (Z * V)) : list (Z * V) :=
  take (length l - 1) l.

(** [len(c)] *)
Definition len (c : t) : nat := length (items c).

(** [c.get(k)], default [None]: a hit moves the item to the front. *)
Definition get (k : Z) (c : t) : option V * t :=
  match find k (items c) with
  | Some v => (Some v, mk (size c) ((k, v) :: remove k (items c)))
  | None => (None, c)
  end.

(** [c[k] = v]: an item that is present gets the value and moves to the
    front; a new item is put at the front, after the last one was dropped
    when the container would exceed its size. *)
Definition set (k : Z) (v : V) (c : t) : t :=
  match find k (items c) with
  | Some _ => mk (size c) ((k, v) :: remove k (items c))
  | None =>
      if bool_decide (0 < size c ∧ size c < S (length (items c)))
      then mk (size c) ((k, v) :: delete_last (items c))
      else mk (size c) ((k, v) :: items c)
  end.

(** [c.pop(k, None)]: a default is given, so a missing key is no error. *)
Definition pop (k : Z) (c : t) : option V * t :=
  match find k (items c) with
  | Some v => (Some v, mk (size c) (remove k (items c)))
  | None => (None, c)
  end.

(** A container as the methods above build it: a positive size that the
    number of items respects, every key once. *)
Definition wf (c : t) : Prop :=
  0 < size c ∧ length (items c) ≤ size c ∧ NoDup (items c).*1.

(** [c[k1] = v1; ...; c[kn] = vn], in this order. *)
Definition set_all (kvs : list (Z * V)) (c : t) : t :=
  foldl (λ c kv, set kv.1 kv.2 c) c kvs.
End lru.
Arguments t : clear implicits.
End LRU.

(** ** The host's objects *)

(** [homeassistant.helpers.json.JSONEncoder], passed as a class. *)
Inductive encoder := JSONEncoder.

(** A [RuntimeEntryData] and a [BleakGATTServiceCollection] are objects of
    the caller; the registry stores and returns the reference and never
    looks inside. *)
Abbreviation RuntimeEntryData := ref.
Abbreviation BleakGATTServiceCollection := ref.

(** Modelled from the spec: the class [ConfigEntry] of
    [homeassistant.config_entries] is not in the repository.  It is a record
    of the host that represents one configured instance of an integration,
    identified by a stable opaque string; the other attributes stand for
    what else the host keeps in it. *)
Record ConfigEntry := {
  entry_id : string;
  domain : string;
  title : string;
  unique_id : option string
}.

(** Modelled from the spec: the class [ESPHomeStorage] of [entry_data.py] is
    not in the repository.  It is the host's versioned persistent store,
    keyed by a string; an instance keeps what its constructor was given. *)
Record ESPHomeStorage := {
  store_hass : ref;
  store_version : Z;
  store_key : string;
  store_encoder : encoder
}.

(** Modelled from the spec: the constant [DOMAIN] of [const.py] is not in
    the repository.  It names the well-known slot of [hass.data] that holds
    the registry of the esphome integration. *)
Definition DOMAIN : string := "esphome".

Definition STORAGE_VERSION : Z := 1.
Definition MAX_CACHED_SERVICES : nat := 128.

(** ** The registry *)

Record DomainData := {
  _entry_datas : gmap string RuntimeEntryData;
  _stores : gmap string ref;
  _gatt_services_cache : LRU.t BleakGATTServiceCollection;
  _gatt_mtu_cache : LRU.t Z
}.

(** [DomainData()]: every field from its [default_factory]. *)
Definition DomainData_new : DomainData := {|
  _entry_datas := ∅;
  _stores := ∅;
  _gatt_services_cache := LRU.new MAX_CACHED_SERVICES;
  _gatt_mtu_cache := LRU.new MAX_CACHED_SERVICES
|}.

(** ** The object store *)

Inductive pyobj :=
| HomeAssistantObj (data : gmap string ref)
| DomainDataObj (d : DomainData)
| ESPHomeStorageObj (s : ESPHomeStorage)
| HostObj.

(** The object at address [r] is the [r]-th one that was constructed. *)
Abbreviation heap := (list pyobj).

(** A constructor call: the new object gets the next address. *)
Definition alloc (o : pyobj) (h : heap) : ref * heap := (length h, h ++ [o]).

(** ** Field assignments on [self] *)

Definition with_entry_datas (m : gmap string RuntimeEntryData) (self : DomainData) : DomainData :=
  {| _entry_datas := m;
     _stores := _stores self;
     _gatt_services_cache := _gatt_services_cache self;
     _gatt_mtu_cache := _gatt_mtu_cache self |}.

Definition with_stores (m : gmap string ref) (self : DomainData) : DomainData :=
  {| _entry_datas := _entry_datas self;
     _stores := m;
     _gatt_services_cache := _gatt_services_cache self;
     _gatt_mtu_cache := _gatt_mtu_cache self |}.

Definition with_gatt_services_cache (c : LRU.t BleakGATTServiceCollection) (self : DomainData) : DomainData :=
  {| _entry_datas := _entry_datas self;
     _stores := _stores self;
     _gatt_services_cache := c;
     _gatt_mtu_cache := _gatt_mtu_cache self |}.

Definition with_gatt_mtu_cache (c : LRU.t Z) (self : DomainData) : DomainData :=
  {| _entry_datas := _entry_datas self;
     _stores := _stores self;
     _gatt_services_cache := _gatt_services_cache self;
     _gatt_mtu_cache := c |}.

(** ** The methods of [DomainData] *)

Definition get_gatt_services_cache (address : Z) (self : DomainData)
  : result (option BleakGATTServiceCollection) * DomainData :=
  let '(r, c) := LRU.get address (_gatt_services_cache self) in
  (Return r, with_gatt_services_cache c self).

Definition set_gatt_services_cache (address : Z) (services : BleakGATTServiceCollection)
    (self : DomainData) : result unit * DomainData :=
  (Return (), with_gatt_services_cache (LRU.set address services (_gatt_services_cache self)) self).

Definition clear_gatt_services_cache (address : Z) (self : DomainData)
  : result unit * DomainData :=
  let '(_, c) := LRU.pop address (_gatt_services_cache self) in
  (Return (), with_gatt_services_cache c self).

Definition get_gatt_mtu_cache (address : Z) (self : DomainData)
  : result (option Z) * DomainData :=
  let '(r, c) := LRU.get address (_gatt_mtu_cache self) in
  (Return r, with_gatt_mtu_cache c self).

Definition set_gatt_mtu_cache (address : Z) (mtu : Z) (self : DomainData)
  : result unit * DomainData :=
  (Return (), with_gatt_mtu_cache (LRU.set address mtu (_gatt_mtu_cache self)) self).

Definition clear_gatt_mtu_cache (address : Z) (self : DomainData)
  : result unit * DomainData :=
  let '(_, c) := LRU.pop address (_gatt_mtu_cache self) in
  (Return (), with_gatt_mtu_cache c self).

(** [self._entry_datas[entry.entry_id]]: a missing key raises [KeyError]. *)
Definition get_entry_data (entry : ConfigEntry) (self : DomainData)
  : result RuntimeEntryData * DomainData :=
  match _entry_datas self !! entry_id entry with
  | Some d => (Return d, self)
  | None => (Raise (KeyError (entry_id entry)), self)
  end.

Definition set_entry_data (entry : ConfigEntry) (entry_data : RuntimeEntryData)
    (self : DomainData) : result unit * DomainData :=
  if bool_decide (is_Some (_entry_datas self !! entry_id entry))
  then (Raise (ValueError "Entry data for this entry is already set"), self)
  else (Return (), with_entry_datas (<[entry_id entry := entry_data]> (_entry_datas self)) self).

(** [dict.pop(key)] with no default: a missing key raises [KeyError]. *)
Definition pop_entry_data (entry : ConfigEntry) (self : DomainData)
  : result RuntimeEntryData * DomainData :=
  match _entry_datas self !! entry_id entry with
  | Some d => (Return d, with_entry_datas (delete (entry_id entry) (_entry_datas self)) self)
  | None => (Raise (KeyError (entry_id entry)), self)
  end.

(** [self._stores.setdefault(entry.entry_id, ESPHomeStorage(...))].  The
    arguments of a call are evaluated before the call: the store object is
    constructed first, and [setdefault] then keeps the one the key already
    has, or inserts the new one. *)
Definition get_or_create_store (hass : ref) (entry : ConfigEntry)
    (self : DomainData) (h : heap) : ref * DomainData * heap :=
  let '(new, h') :=
    alloc (ESPHomeStorageObj
             {| store_hass := hass;
                store_version := STORAGE_VERSION;
                store_key := "esphome." +:+ entry_id entry;
                store_encoder := JSONEncoder |}) h in
  match _stores self !! entry_id entry with
  | Some r => (r, self, h')
  | None => (new, with_stores (<[entry_id entry := new]> (_stores self)) self, h')
  end.

(** The class method [DomainData.get(hass)].  [hass.data] is the dict of the
    object at [hass]; an object that is no [HomeAssistant] has no such
    attribute. *)
Definition get (hass : ref) (h : heap) : result ref * heap :=
  match h !! hass with
  | Some (HomeAssistantObj data) =>
      match data !! DOMAIN with
      | Some r => (Return r, h)
      | None =>
          let '(ret, h') := alloc (DomainDataObj DomainData_new) h in
          (Return ret, <[hass := HomeAssistantObj (<[DOMAIN := ret]> data)]> h')
      end
  | _ => (Raise (AttributeError "data"), h)
  end.

(** ** Sequences of calls on one registry *)

Inductive call :=
| GetGattServicesCache (address : Z)
| SetGattServicesCache (address : Z) (services : BleakGATTServiceCollection)
| ClearGattServicesCache (address : Z)
| GetGattMtuCache (address : Z)
| SetGattMtuCache (address : Z) (mtu : Z)
| ClearGattMtuCache (address : Z)
| GetEntryData (entry : ConfigEntry)
| SetEntryData (entry : ConfigEntry) (entry_data : RuntimeEntryData)
| PopEntryData (entry : ConfigEntry)
| GetOrCreateStore (hass : ref) (entry : ConfigEntry).

(** One call; what it returns or raises is dropped, the caller goes on. *)
Definition step (st : DomainData * heap) (c : call) : DomainData * heap :=
  let '(self, h) := st in
  match c with
  | GetGattServicesCache a => ((get_gatt_services_cache a self).2, h)
  | SetGattServicesCache a s => ((set_gatt_services_cache a s self).2, h)
  | ClearGattServicesCache a => ((clear_gatt_services_cache a self).2, h)
  | GetGattMtuCache a => ((get_gatt_mtu_cache a self).2, h)
  | SetGattMtuCache a m => ((set_gatt_mtu_cache a m self).2, h)
  | ClearGattMtuCache a => ((clear_gatt_mtu_cache a self).2, h)
  | GetEntryData e => ((get_entry_data e self).2, h)
  | SetEntryData e d => ((set_entry_data e d self).2, h)
  | PopEntryData e => ((pop_entry_data e self).2, h)
  | GetOrCreateStore hass e =>
      let '(_, self', h') := get_or_create_store hass e self h in (self', h')
  end.

Definition run (cs : list call) (st : DomainData * heap) : DomainData * heap :=
  foldl step st cs.

(** The states a fresh registry reaches, whatever the object store held when
    it was constructed. *)
Definition reachable (st : DomainData * heap) : Prop :=
  ∃ cs h0, st = run cs (DomainData_new, h0).

(** ** Invariants *)

(** Both caches are containers as [LRU]'s methods build them. *)
Definition caches_wf (self : DomainData) : Prop :=
  LRU.wf (_gatt_services_cache self) ∧ LRU.wf (_gatt_mtu_cache self).

(** What [ESPHomeStorage(hass, STORAGE_VERSION, f"esphome.{id}", encoder=JSONEncoder)]
    constructs. *)
Definition store_for (hass : ref) (id : string) : pyobj :=
  ESPHomeStorageObj
    {| store_hass := hass;
       store_version := STORAGE_VERSION;
       store_key := "esphome." +:+ id;
       store_encoder := JSONEncoder |}.

(** Every handle of the store map is a live store object that was
    constructed for its key. *)
Definition stores_inv (self : DomainData) (h : heap) : Prop :=
  ∀ id r, _stores self !! id = Some r → ∃ hass, h !! r = Some (store_for hass id).

(** A call of [get_or_create_store] that constructs no object leaves the
    object store as it found it. *)
Definition constructs_nothing (hass : ref) (entry : ConfigEntry)
    (self : DomainData) (h : heap) : Prop :=
  (get_or_create_store hass entry self h).2 = h.

(** The entry identifier a call asks a store for, if it is a call of
    [get_or_create_store]. *)
Definition requested_id (c : call) : option string :=
  match c with
  | GetOrCreateStore _ entry => Some (entry_id entry)
  | _ => None
  end.

(** The identifiers of the [get_or_create_store] calls of a sequence, one
    for each call. *)
Definition requested_ids (cs : list call) : list string := omap requested_id cs.

(** ** Sample values *)

Definition kitchen : ConfigEntry :=
  {| entry_id := "a1"; domain := "esphome"; title := "Kitchen";
     unique_id := Some "aa:bb:cc:dd:ee:01" |}.

(** The same identifier as [kitchen], every other attribute different. *)
Definition kitchen_renamed : ConfigEntry :=
  {| entry_id := "a1"; domain := "other"; title := "Kitchen (old)";
     unique_id := None |}.

Definition garage : ConfigEntry :=
  {| entry_id := "b2"; domain := "esphome"; title := "Garage";
     unique_id := Some "aa:bb:cc:dd:ee:02" |}.

(** * Properties *)

(** ** The recency list *)
Section lru_facts.
Context {V : Type}.
Implicit Types (k : Z) (v : V) (l : list (Z * V)) (c : LRU.t V).

Lemma find_None k l : LRU.find k l = None ↔ k ∉ l.*1.
Proof.
  induction l as [|[k' v'] l IH]; simpl.
  - split; [intros _; apply not_elem_of_nil | done].
  - case_bool_decide as Hk.
    + subst. split; [done | intros []; left].
    + rewrite IH, not_elem_of_cons. split; [by intros ?; split; [congruence|] | by intros [_ ?]].
Qed.

Lemma find_Some_elem k v l : LRU.find k l = Some v → (k, v) ∈ l.
Proof.
  induction l as [|[k' v'] l IH]; simpl; [done|].
  case_bool_decide as Hk.
  - intros [= ->]. subst. left.
  - intros ?. right. auto.
Qed.

Lemma find_elem_NoDup k v l : NoDup l.*1 → (k, v) ∈ l → LRU.find k l = Some v.
Proof.
  induction l as [|[k' v'] l IH]; simpl.
  - intros _ []%elem_of_nil.
  - intros [Hnotin Hnd]%NoDup_cons [[= -> ->] | Hin]%elem_of_cons.
    + by rewrite bool_decide_eq_true_2.
    + rewrite bool_decide_eq_false_2; [by auto|].
      intros ->. apply Hnotin. by apply (list_elem_of_fmap_2 fst) in Hin.
Qed.

Lemma remove_keys k l k' : k' ∈ (LRU.remove k l).*1 ↔ k' ∈ l.*1 ∧ k' ≠ k.
Proof.
  unfold LRU.remove. rewrite !list_elem_of_fmap. split.
  - intros [p [-> [Hp ?]%list_elem_of_filter]]. eauto.
  - intros [[p [-> ?]] ?]. exists p. split; [done|]. by apply list_elem_of_filter.
Qed.

Lemma remove_absent k l : k ∉ l.*1 → LRU.remove k l = l.
Proof.
  induction l as [|[k' v'] l IH]; [done|].
  rewrite fmap_cons, not_elem_of_cons. intros [Hne Hnotin].
  unfold LRU.remove. rewrite filter_cons_True; [|simpl in *; congruence].
  f_equal. by apply IH.
Qed.

Lemma remove_NoDup k l : NoDup l.*1 → NoDup (LRU.remove k l).*1.
Proof.
  induction l as [|[k' v'] l IH]; [done|].
  rewrite fmap_cons, NoDup_cons. intros [Hnotin Hnd].
  unfold LRU.remove. destruct (decide (k' = k)) as [->|Hne].
  - rewrite filter_cons_False; [|by intros Hc; apply Hc]. by apply IH.
  - rewrite filter_cons_True; [|done].
    rewrite fmap_cons, NoDup_cons. split; [|by apply IH].
    fold (LRU.remove k l). rewrite remove_keys. by intros [? _].
Qed.

Lemma remove_length_present k l :
  NoDup l.*1 → k ∈ l.*1 → S (length (LRU.remove k l)) = length l.
Proof.
  induction l as [|[k' v'] l IH]; simpl.
  - intros _ []%elem_of_nil.
  - intros [Hnotin Hnd]%NoDup_cons Hin.
    unfold LRU.remove. destruct (decide (k' = k)) as [->|Hne].
    + rewrite filter_cons_False; [|by intros Hc; apply Hc].
      fold (LRU.remove k l). by rewrite remove_absent.
    + rewrite filter_cons_True; [|done]. simpl. f_equal.
      apply IH; [done|]. by apply elem_of_cons in Hin as [?|?]; [congruence|].
Qed.

Lemma find_remove_eq k l : LRU.find k (LRU.remove k l) = None.
Proof. apply find_None. rewrite remove_keys. by intros [_ ?]. Qed.

Lemma find_remove_ne k k' l : k ≠ k' → LRU.find k' (LRU.remove k l) = LRU.find k' l.
Proof.
  intros Hne. induction l as [|[k1 v1] l IH]; [done|].
  unfold LRU.remove. destruct (decide (k1 = k)) as [->|Hne1].
  - rewrite filter_cons_False; [|by intros Hc; apply Hc].
    simpl. by rewrite bool_decide_eq_false_2.
  - rewrite filter_cons_True; [|done]. simpl. case_bool_decide; [done|]. apply IH.
Qed.
End lru_facts.

(** ** The container keeps its shape *)
Section lru_wf_facts.
Context {V : Type}.
Implicit Types (k : Z) (v : V) (l : list (Z * V)) (c : LRU.t V).

Lemma take_keys_NoDup n l : NoDup l.*1 → NoDup (take n l).*1.
Proof.
  rewrite fmap_take. intros Hnd.
  eapply sublist_NoDup; [done | apply sublist_take].
Qed.

Lemma take_keys_absent n k l : k ∉ l.*1 → k ∉ (take n l).*1.
Proof.
  rewrite fmap_take. intros Hnotin Hin. apply Hnotin.
  by apply (subseteq_take n).
Qed.

Lemma wf_new n : 0 < n → LRU.wf (LRU.new (V:=V) n).
Proof. intros Hn. repeat split; simpl; [done | lia | apply NoDup_nil_2]. Qed.

Lemma front_wf k v c :
  LRU.wf c → is_Some (LRU.find k (LRU.items c)) →
  LRU.wf (LRU.mk (LRU.size c) ((k, v) :: LRU.remove k (LRU.items c))).
Proof.
  intros (Hpos & Hlen & Hnd) [v0 Hfind]. repeat split; simpl; [done| |].
  - rewrite remove_length_present; [done..|].
    apply find_Some_elem in Hfind. by apply (list_elem_of_fmap_2 fst) in Hfind.
  - apply NoDup_cons. split; [|by apply remove_NoDup].
    rewrite remove_keys. by intros [_ ?].
Qed.

Lemma wf_get k c : LRU.wf c → LRU.wf (LRU.get k c).2.
Proof.
  intros Hwf. unfold LRU.get.
  destruct (LRU.find k (LRU.items c)) as [v|] eqn:Hfind; [|done].
  apply front_wf; eauto.
Qed.

Lemma wf_pop k c : LRU.wf c → LRU.wf (LRU.pop k c).2.
Proof.
  intros Hwf. unfold LRU.pop.
  destruct (LRU.find k (LRU.items c)) as [v|] eqn:Hfind; [|done].
  destruct Hwf as (Hpos & Hlen & Hnd). repeat split; simpl; [done| |].
  - apply find_Some_elem, (list_elem_of_fmap_2 fst) in Hfind.
    pose proof (remove_length_present k _ Hnd Hfind). lia.
  - by apply remove_NoDup.
Qed.

(** Under the invariant, an assignment puts the item in front of the
    others and keeps the [size] most recent ones. *)
Lemma set_items k v c :
  LRU.wf c →
  LRU.items (LRU.set k v c) = take (LRU.size c) ((k, v) :: LRU.remove k (LRU.items c)).
Proof.
  intros (Hpos & Hlen & Hnd). unfold LRU.set.
  destruct (LRU.find k (LRU.items c)) as [v0|] eqn:Hfind; simpl.
  - rewrite take_ge; [done|]. simpl.
    apply find_Some_elem, (list_elem_of_fmap_2 fst) in Hfind.
    pose proof (remove_length_present k _ Hnd Hfind). lia.
  - apply find_None in Hfind. rewrite remove_absent by done.
    destruct (LRU.size c) as [|n] eqn:Hsize; [lia|].
    case_bool_decide as Hfull; simpl; f_equal.
    + unfold LRU.delete_last. f_equal. lia.
    + rewrite take_ge; [done | lia].
Qed.

Lemma size_set k v c : LRU.size (LRU.set k v c) = LRU.size c.
Proof.
  unfold LRU.set. destruct (LRU.find _ _); [done|]. by case_bool_decide.
Qed.

Lemma wf_set k v c : LRU.wf c → LRU.wf (LRU.set k v c).
Proof.
  intros Hwf. pose proof (set_items k v c Hwf) as Hitems.
  destruct Hwf as (Hpos & Hlen & Hnd).
  unfold LRU.wf. rewrite size_set, Hitems. repeat split; [done| |].
  - rewrite length_take. lia.
  - apply take_keys_NoDup. simpl. apply NoDup_cons.
    split; [|by apply remove_NoDup]. rewrite remove_keys. by intros [_ ?].
Qed.
End lru_wf_facts.

(** ** A run of assignments *)
Section lru_set_all.
Context {V : Type}.
Implicit Types (k : Z) (v : V) (l kvs rest : list (Z * V)) (c : LRU.t V).

Lemma set_all_snoc kvs k v c :
  LRU.set_all (kvs ++ [(k, v)]) c = LRU.set k v (LRU.set_all kvs c).
Proof. unfold LRU.set_all. by rewrite foldl_snoc. Qed.

Lemma size_set_all kvs c : LRU.size (LRU.set_all kvs c) = LRU.size c.
Proof.
  induction kvs as [|[k v] kvs IH] using rev_ind; [done|].
  by rewrite set_all_snoc, size_set.
Qed.

Lemma wf_set_all kvs c : LRU.wf c → LRU.wf (LRU.set_all kvs c).
Proof.
  intros Hwf. induction kvs as [|[k v] kvs IH] using rev_ind; [done|].
  rewrite set_all_snoc. by apply wf_set.
Qed.

(** The items after the run: the assigned ones, the last assigned first,
    then items that were there before, cut at the size. *)
Lemma set_all_items kvs c :
  LRU.wf c → NoDup kvs.*1 →
  ∃ rest,
    LRU.items (LRU.set_all kvs c) = take (LRU.size c) (reverse kvs ++ rest)
    ∧ NoDup (reverse kvs ++ rest).*1.
Proof.
  intros Hwf. induction kvs as [|[k v] kvs IH] using rev_ind; intros Hnd.
  - exists (LRU.items c). destruct Hwf as (Hpos & Hlen & Hnd0).
    simpl. by rewrite take_ge.
  - rewrite fmap_app in Hnd. apply NoDup_app in Hnd as (Hnd & Hfresh & _).
    assert (k ∉ kvs.*1) as Hk.
    { intros Hin. apply (Hfresh _ Hin). simpl. left. }
    destruct (IH Hnd) as (rest & Hitems & Hnd').
    pose proof (wf_set_all kvs c Hwf) as Hwf'.
    rewrite set_all_snoc, (set_items _ _ _ Hwf'), size_set_all, Hitems.
    rewrite fmap_app in Hnd'. apply NoDup_app in Hnd' as (Hnd1 & Hdisj & Hnd2).
    assert (k ∉ (reverse kvs).*1) as Hk'.
    { by rewrite fmap_reverse, elem_of_reverse. }
    exists (LRU.remove k (take (LRU.size c - length (reverse kvs)) rest)).
    split.
    + rewrite take_app. unfold LRU.remove at 1. rewrite filter_app.
      fold (LRU.remove k (take (LRU.size c) (reverse kvs))).
      rewrite (remove_absent k (take _ (reverse kvs))) by by apply take_keys_absent.
      rewrite reverse_snoc.
      destruct Hwf as (Hpos & _). destruct (LRU.size c) as [|m]; [lia|].
      simpl. f_equal.
      destruct (decide (length (reverse kvs) ≤ S m)) as [Hle|Hgt].
      * by rewrite (take_ge (reverse kvs)).
      * replace (S m - length (reverse kvs)) with 0 by lia.
        rewrite take_0. unfold LRU.remove.
        rewrite filter_nil, !app_nil_r, take_take. f_equal. lia.
    + rewrite reverse_snoc. simpl. apply NoDup_cons. split.
      * rewrite fmap_app, not_elem_of_app. split; [done|].
        rewrite remove_keys. by intros [_ ?].
      * rewrite fmap_app. apply NoDup_app. split_and!; [done| |].
        -- intros x Hx [Hin _]%remove_keys. apply (Hdisj x Hx).
           rewrite fmap_take in Hin. by apply (subseteq_take _ _) in Hin.
        -- by apply remove_NoDup, take_keys_NoDup.
Qed.

(** Once as many distinct keys as the size were assigned, nothing older is
    left. *)
Lemma set_all_full kvs c :
  LRU.wf c → NoDup kvs.*1 → LRU.size c ≤ length kvs →
  LRU.items (LRU.set_all kvs c) = take (LRU.size c) (reverse kvs).
Proof.
  intros Hwf Hnd Hlen. destruct (set_all_items kvs c Hwf Hnd) as (rest & -> & _).
  apply take_app_le. by rewrite length_reverse.
Qed.

(** One assignment more than the size: the first key is gone, every later
    one has its value. *)
Lemma set_all_evicts k0 v0 kvs c :
  LRU.wf c → NoDup (k0 :: kvs.*1) → length kvs = LRU.size c →
  LRU.find k0 (LRU.items (LRU.set_all ((k0, v0) :: kvs) c)) = None
  ∧ ∀ k v, (k, v) ∈ kvs → LRU.find k (LRU.items (LRU.set_all ((k0, v0) :: kvs) c)) = Some v.
Proof.
  intros Hwf Hnd Hlen.
  rewrite set_all_full; [|done|done|simpl; lia].
  rewrite reverse_cons, take_app_length' by by rewrite length_reverse.
  apply NoDup_cons in Hnd as [Hk0 Hnd]. split.
  - apply find_None. by rewrite fmap_reverse, elem_of_reverse.
  - intros k v Hin. apply find_elem_NoDup.
    + by rewrite fmap_reverse, reverse_Permutation.
    + by apply elem_of_reverse.
Qed.
End lru_set_all.

(** ** What every reachable registry satisfies *)

(** Unfold the methods that touch neither the store map nor the object
    store. *)
Ltac unfold_methods :=
  unfold get_gatt_services_cache, clear_gatt_services_cache,
    get_gatt_mtu_cache, clear_gatt_mtu_cache, get_entry_data,
    set_entry_data, pop_entry_data.

Lemma caches_wf_new : caches_wf DomainData_new.
Proof. split; apply wf_new; unfold MAX_CACHED_SERVICES; lia. Qed.

Lemma step_caches_wf st c : caches_wf st.1 → caches_wf (step st c).1.
Proof.
  destruct st as [self h]. intros [Hs Hm]. simpl in Hs, Hm.
  destruct c; simpl; unfold_methods; unfold get_or_create_store, alloc; simpl.
  - pose proof (wf_get address _ Hs).
    by destruct (LRU.get address (_gatt_services_cache self)).
  - split; [by apply wf_set | done].
  - pose proof (wf_pop address _ Hs).
    by destruct (LRU.pop address (_gatt_services_cache self)).
  - pose proof (wf_get address _ Hm).
    by destruct (LRU.get address (_gatt_mtu_cache self)).
  - split; [done | by apply wf_set].
  - pose proof (wf_pop address _ Hm).
    by destruct (LRU.pop address (_gatt_mtu_cache self)).
  - by destruct (_entry_datas self !! entry_id entry).
  - by case_bool_decide.
  - by destruct (_entry_datas self !! entry_id entry).
  - by destruct (_stores self !! entry_id entry).
Qed.

Lemma stores_inv_new h : stores_inv DomainData_new h.
Proof. intros id r Hr. simpl in Hr. by rewrite lookup_empty in Hr. Qed.

Lemma get_or_create_store_inv hass entry self h :
  stores_inv self h →
  stores_inv (get_or_create_store hass entry self h).1.2
             (get_or_create_store hass entry self h).2.
Proof.
  intros Hinv. unfold get_or_create_store, alloc.
  destruct (_stores self !! entry_id entry) as [r0|] eqn:Hlook; simpl.
  - intros id r Hr. destruct (Hinv id r Hr) as [hs Hobj].
    exists hs. rewrite lookup_app_l; [done|]. by eapply lookup_lt_Some.
  - intros id r Hr. simpl in Hr.
    destruct (decide (entry_id entry = id)) as [<-|Hne].
    + rewrite lookup_insert_eq in Hr. injection Hr as <-.
      exists hass. by rewrite lookup_app_r, Nat.sub_diag.
    + rewrite lookup_insert_ne in Hr by done.
      destruct (Hinv id r Hr) as [hs Hobj].
      exists hs. rewrite lookup_app_l; [done|]. by eapply lookup_lt_Some.
Qed.

Lemma step_stores_inv st c : stores_inv st.1 st.2 → stores_inv (step st c).1 (step st c).2.
Proof.
  destruct st as [self h]. intros Hinv.
  destruct c; simpl;
    try (unfold_methods; simpl; repeat case_match; done).
  pose proof (get_or_create_store_inv hass entry self h Hinv) as Hinv'.
  by destruct (get_or_create_store hass entry self h) as [[r self'] h'].
Qed.

Lemma reachable_inv st : reachable st → caches_wf st.1 ∧ stores_inv st.1 st.2.
Proof.
  intros (cs & h0 & ->). unfold run.
  induction cs as [|c cs IH] using rev_ind.
  - split; [apply caches_wf_new | apply stores_inv_new].
  - rewrite foldl_snoc. destruct IH as [Hwf Hinv].
    split; [by apply step_caches_wf | by apply step_stores_inv].
Qed.

Lemma reachable_step st c : reachable st → reachable (step st c).
Proof.
  intros (cs & h0 & ->). exists (cs ++ [c]), h0. unfold run. by rewrite foldl_snoc.
Qed.

(** ** Entry data *)

(** C1.  After [set_entry_data entry data] returned, [get_entry_data entry]
    returns exactly [data].  When nothing is registered under the entry's
    identifier, [set_entry_data] does return, and [get_entry_data] and
    [pop_entry_data] both raise [KeyError] and leave the registry as it
    was.  [pop_entry_data] returns only what was registered, and after it
    returned both raise again; so they do on a new registry. *)
Theorem entry_data_round_trip (entry : ConfigEntry) (data : RuntimeEntryData)
    (self : DomainData) :
  (∀ self', set_entry_data entry data self = (Return (), self') →
     get_entry_data entry self' = (Return data, self'))
  ∧ (_entry_datas self !! entry_id entry = None →
     (set_entry_data entry data self).1 = Return ()
     ∧ get_entry_data entry self = (Raise (KeyError (entry_id entry)), self)
     ∧ pop_entry_data entry self = (Raise (KeyError (entry_id entry)), self))
  ∧ (∀ d self', pop_entry_data entry self = (Return d, self') →
     _entry_datas self !! entry_id entry = Some d
     ∧ get_entry_data entry self' = (Raise (KeyError (entry_id entry)), self')
     ∧ pop_entry_data entry self' = (Raise (KeyError (entry_id entry)), self'))
  ∧ get_entry_data entry DomainData_new
    = (Raise (KeyError (entry_id entry)), DomainData_new)
  ∧ pop_entry_data entry DomainData_new
    = (Raise (KeyError (entry_id entry)), DomainData_new).
Proof.
  assert (∀ s, _entry_datas s !! entry_id entry = None →
            get_entry_data entry s = (Raise (KeyError (entry_id entry)), s)
            ∧ pop_entry_data entry s = (Raise (KeyError (entry_id entry)), s))
    as Hmissing.
  { intros s Hnone. unfold get_entry_data, pop_entry_data. by rewrite Hnone. }
  split_and!.
  - intros self'. unfold set_entry_data. case_bool_decide; [done|].
    intros [= <-]. unfold get_entry_data. simpl. by rewrite lookup_insert_eq.
  - intros Hnone. split; [|by apply Hmissing].
    unfold set_entry_data. rewrite Hnone.
    rewrite bool_decide_eq_false_2; [done|]. by intros [? ?].
  - intros d self'. unfold pop_entry_data.
    destruct (_entry_datas self !! entry_id entry) as [d0|]; [|done].
    intros [= <- <-]. split; [done|]. apply Hmissing. simpl. apply lookup_delete_eq.
  - apply Hmissing, lookup_empty.
  - apply Hmissing, lookup_empty.
Qed.

Lemma entry_data_round_trip_witness :
  let self1 := (set_entry_data kitchen 7 DomainData_new).2 in
  let self2 := (pop_entry_data kitchen self1).2 in
  get_entry_data kitchen self1 = (Return 7, self1)
  ∧ (set_entry_data garage 9 self1).1 = Return ()
  ∧ get_entry_data garage self1 = (Raise (KeyError "b2"), self1)
  ∧ pop_entry_data garage self1 = (Raise (KeyError "b2"), self1)
  ∧ get_entry_data kitchen self2 = (Raise (KeyError "a1"), self2)
  ∧ pop_entry_data kitchen self2 = (Raise (KeyError "a1"), self2).
Proof.
  intros self1 self2.
  destruct (entry_data_round_trip kitchen 7 DomainData_new) as (Hset & _).
  destruct (entry_data_round_trip garage 9 self1) as (_ & Hnone & _).
  destruct (entry_data_round_trip kitchen 7 self1) as (_ & _ & Hpop & _).
  destruct (Hnone eq_refl) as (Hs & Hg & Hp).
  destruct (Hpop 7 self2 eq_refl) as (_ & Hg' & Hp').
  split_and!; [by apply Hset | done..].
Defined.

(** C2.  When [data1] is registered under the entry's identifier,
    [set_entry_data entry data2] raises [ValueError] and leaves the registry
    as it was: [get_entry_data entry] still returns [data1]. *)
Theorem set_entry_data_twice (entry : ConfigEntry) (data1 data2 : RuntimeEntryData)
    (self : DomainData) :
  _entry_datas self !! entry_id entry = Some data1 →
  set_entry_data entry data2 self
    = (Raise (ValueError "Entry data for this entry is already set"), self)
  ∧ get_entry_data entry (set_entry_data entry data2 self).2
    = (Return data1, self).
Proof.
  intros Hsome. unfold set_entry_data.
  rewrite bool_decide_eq_true_2 by (rewrite Hsome; eauto).
  split; [done|]. unfold get_entry_data. simpl. by rewrite Hsome.
Qed.

Lemma set_entry_data_twice_witness :
  let self1 := (set_entry_data kitchen 7 DomainData_new).2 in
  set_entry_data kitchen 8 self1
    = (Raise (ValueError "Entry data for this entry is already set"), self1)
  ∧ get_entry_data kitchen (set_entry_data kitchen 8 self1).2 = (Return 7, self1).
Proof.
  exact (set_entry_data_twice kitchen 7 8
           (set_entry_data kitchen 7 DomainData_new).2 eq_refl).
Defined.

(** C10.  The entry-keyed methods read nothing of the entry but its
    identifier: on two entries with the same identifier each of them
    returns or raises the same and changes the registry (and, for the store,
    the object store) the same way. *)
Theorem entry_methods_depend_on_entry_id (entry1 entry2 : ConfigEntry)
    (entry_data : RuntimeEntryData) (hass : ref) (self : DomainData) (h : heap) :
  entry_id entry1 = entry_id entry2 →
  get_entry_data entry1 self = get_entry_data entry2 self
  ∧ set_entry_data entry1 entry_data self = set_entry_data entry2 entry_data self
  ∧ pop_entry_data entry1 self = pop_entry_data entry2 self
  ∧ get_or_create_store hass entry1 self h = get_or_create_store hass entry2 self h.
Proof.
  intros Hid.
  unfold get_entry_data, set_entry_data, pop_entry_data, get_or_create_store.
  by rewrite Hid.
Qed.

Lemma entry_methods_depend_on_entry_id_witness :
  kitchen ≠ kitchen_renamed
  ∧ get_entry_data kitchen DomainData_new = get_entry_data kitchen_renamed DomainData_new
  ∧ set_entry_data kitchen 7 DomainData_new = set_entry_data kitchen_renamed 7 DomainData_new
  ∧ pop_entry_data kitchen DomainData_new = pop_entry_data kitchen_renamed DomainData_new
  ∧ get_or_create_store 0 kitchen DomainData_new []
    = get_or_create_store 0 kitchen_renamed DomainData_new [].
Proof.
  split; [discriminate|].
  exact (entry_methods_depend_on_entry_id kitchen kitchen_renamed 7 0
           DomainData_new [] eq_refl).
Defined.

(** ** Stores *)

Lemma reachable_run st cs : reachable st → reachable (run cs st).
Proof.
  intros (cs0 & h0 & ->). exists (cs0 ++ cs), h0. unfold run. by rewrite foldl_app.
Qed.

Lemma get_or_create_store_lookup hass entry self h :
  _stores (get_or_create_store hass entry self h).1.2 !! entry_id entry
  = Some (get_or_create_store hass entry self h).1.1.
Proof.
  unfold get_or_create_store, alloc.
  destruct (_stores self !! entry_id entry) eqn:Hlook; simpl; [done|].
  apply lookup_insert_eq.
Qed.

(** No method takes a handle out of the store map. *)
Lemma step_stores_mono st c id r :
  _stores st.1 !! id = Some r → _stores (step st c).1 !! id = Some r.
Proof.
  destruct st as [self h]. simpl. intros Hr.
  destruct c; simpl;
    try (unfold_methods; simpl; repeat case_match; done).
  unfold get_or_create_store, alloc.
  destruct (_stores self !! entry_id entry) eqn:Hlook; simpl; [done|].
  rewrite lookup_insert_ne; [done | congruence].
Qed.

Lemma run_stores_mono cs st id r :
  _stores st.1 !! id = Some r → _stores (run cs st).1 !! id = Some r.
Proof.
  intros Hr. unfold run. induction cs as [|c cs IH] using rev_ind; [done|].
  rewrite foldl_snoc. by apply step_stores_mono.
Qed.

Lemma store_for_inj hass1 hass2 id1 id2 :
  store_for hass1 id1 = store_for hass2 id2 → id1 = id2.
Proof. unfold store_for. intros [= _ Hkey]. done. Qed.

(** C3.  On a registry reached from a new one, take a call of
    [get_or_create_store], any calls of the registry's methods after it, and
    a second call of [get_or_create_store].  For the same entry identifier
    the second call returns the very handle of the first; for another
    identifier it returns a different one; and each handle is a store
    object that was constructed with version 1 and the key ["esphome."]
    followed by the entry identifier. *)
Theorem get_or_create_store_memoized (hass1 hass2 : ref) (entry1 entry2 : ConfigEntry)
    (cs : list call) (self : DomainData) (h : heap) :
  reachable (self, h) →
  ∃ r1 self1 h1 r2 self2 h2,
    get_or_create_store hass1 entry1 self h = (r1, self1, h1)
    ∧ get_or_create_store hass2 entry2 (run cs (self1, h1)).1 (run cs (self1, h1)).2
      = (r2, self2, h2)
    ∧ (entry_id entry1 = entry_id entry2 → r1 = r2)
    ∧ (entry_id entry1 ≠ entry_id entry2 → r1 ≠ r2)
    ∧ (∃ hass, h2 !! r1 = Some (ESPHomeStorageObj
         {| store_hass := hass; store_version := 1;
            store_key := "esphome." +:+ entry_id entry1;
            store_encoder := JSONEncoder |}))
    ∧ (∃ hass, h2 !! r2 = Some (ESPHomeStorageObj
         {| store_hass := hass; store_version := 1;
            store_key := "esphome." +:+ entry_id entry2;
            store_encoder := JSONEncoder |})).
Proof.
  intros Hreach.
  pose proof (reachable_step _ (GetOrCreateStore hass1 entry1) Hreach) as Hreach1.
  pose proof (get_or_create_store_lookup hass1 entry1 self h) as Hl1.
  simpl in Hreach1.
  destruct (get_or_create_store hass1 entry1 self h) as [[r1 self1] h1].
  simpl in Hl1. exists r1, self1, h1.
  apply (reachable_run _ cs) in Hreach1.
  apply (run_stores_mono cs (self1, h1)) in Hl1.
  destruct (run cs (self1, h1)) as [self1' h1']. simpl in Hl1. simpl.
  pose proof (reachable_step _ (GetOrCreateStore hass2 entry2) Hreach1) as Hreach2.
  pose proof (get_or_create_store_lookup hass2 entry2 self1' h1') as Hl2.
  pose proof (step_stores_mono (self1', h1') (GetOrCreateStore hass2 entry2) _ _ Hl1)
    as Hl1'.
  simpl in Hreach2, Hl1'.
  destruct (get_or_create_store hass2 entry2 self1' h1') as [[r2 self2] h2].
  simpl in Hl2, Hl1'. exists r2, self2, h2.
  apply reachable_inv in Hreach2 as [_ Hinv]. simpl in Hinv.
  split_and!; [done..| | | |].
  - intros Hid. rewrite Hid in Hl1'. congruence.
  - intros Hid ->.
    destruct (Hinv _ _ Hl1') as [hs1 Ho1]. destruct (Hinv _ _ Hl2) as [hs2 Ho2].
    apply Hid, (store_for_inj hs1 hs2). congruence.
  - exact (Hinv _ _ Hl1').
  - exact (Hinv _ _ Hl2).
Qed.

Lemma get_or_create_store_memoized_witness :
  ∃ r1 self1 h1 r2 self2 h2,
    get_or_create_store 0 kitchen (run [SetEntryData kitchen 7] (DomainData_new, [HomeAssistantObj ∅])).1
      (run [SetEntryData kitchen 7] (DomainData_new, [HomeAssistantObj ∅])).2 = (r1, self1, h1)
    ∧ get_or_create_store 0 garage
        (run [GetOrCreateStore 0 kitchen_renamed] (self1, h1)).1
        (run [GetOrCreateStore 0 kitchen_renamed] (self1, h1)).2
      = (r2, self2, h2)
    ∧ (entry_id kitchen = entry_id garage → r1 = r2)
    ∧ (entry_id kitchen ≠ entry_id garage → r1 ≠ r2)
    ∧ (∃ hass, h2 !! r1 = Some (ESPHomeStorageObj
         {| store_hass := hass; store_version := 1;
            store_key := "esphome." +:+ entry_id kitchen;
            store_encoder := JSONEncoder |}))
    ∧ (∃ hass, h2 !! r2 = Some (ESPHomeStorageObj
         {| store_hass := hass; store_version := 1;
            store_key := "esphome." +:+ entry_id garage;
            store_encoder := JSONEncoder |})).
Proof.
  apply (get_or_create_store_memoized 0 0 kitchen garage
           [GetOrCreateStore 0 kitchen_renamed]).
  exists [SetEntryData kitchen 7], [HomeAssistantObj ∅].
  apply surjective_pairing.
Defined.

(** C6, as the code has it.  When the store map has a handle for the entry's
    identifier, [get_or_create_store] returns that handle and leaves the
    registry and every object of the object store as they were; the
    argument of [setdefault] is evaluated all the same, so one more store
    object is constructed, which nothing refers to. *)
Theorem get_or_create_store_present (hass : ref) (entry : ConfigEntry)
    (self : DomainData) (h : heap) (r : ref) :
  _stores self !! entry_id entry = Some r →
  get_or_create_store hass entry self h
  = (r, self,
     h ++ [ESPHomeStorageObj
             {| store_hass := hass; store_version := 1;
                store_key := "esphome." +:+ entry_id entry;
                store_encoder := JSONEncoder |}]).
Proof. intros Hr. unfold get_or_create_store, alloc. by rewrite Hr. Qed.

Lemma get_or_create_store_present_witness :
  let st := run [GetOrCreateStore 0 kitchen] (DomainData_new, [HomeAssistantObj ∅]) in
  get_or_create_store 0 kitchen st.1 st.2
  = (1, st.1,
     st.2 ++ [ESPHomeStorageObj
                {| store_hass := 0; store_version := 1;
                   store_key := "esphome.a1"; store_encoder := JSONEncoder |}]).
Proof.
  exact (get_or_create_store_present 0 kitchen
           (run [GetOrCreateStore 0 kitchen] (DomainData_new, [HomeAssistantObj ∅])).1
           (run [GetOrCreateStore 0 kitchen] (DomainData_new, [HomeAssistantObj ∅])).2
           1 eq_refl).
Defined.

(** C6, as it is stated, fails: with a handle for ["a1"] already in the store
    map, the call for ["a1"] does construct a store object. *)
Lemma get_or_create_store_reconstructs :
  let st := run [GetOrCreateStore 0 kitchen] (DomainData_new, [HomeAssistantObj ∅]) in
  _stores st.1 !! entry_id kitchen = Some 1
  ∧ ¬ constructs_nothing 0 kitchen st.1 st.2.
Proof.
  split; [reflexivity|]. unfold constructs_nothing.
  intros Heq. apply (f_equal length) in Heq. vm_compute in Heq. discriminate.
Qed.

(** ** The registry of a process *)

(** C5.  [DomainData.get] called twice on the same [hass] returns the same
    reference both times, and the second call changes nothing.  When the
    slot [DOMAIN] of [hass.data] is taken, the first call returns what it
    holds and changes nothing either; when it is free, the first call
    returns a reference that named no object before, and the object it now
    names is a registry with an empty entry-data map, an empty store map and
    two empty caches of size 128. *)
Theorem get_singleton (hass : ref) (h : heap) (data : gmap string ref) :
  h !! hass = Some (HomeAssistantObj data) →
  ∃ r h1,
    get hass h = (Return r, h1)
    ∧ get hass h1 = (Return r, h1)
    ∧ (∀ r0, data !! DOMAIN = Some r0 → r = r0 ∧ h1 = h)
    ∧ (data !! DOMAIN = None →
       h !! r = None
       ∧ ∃ d, h1 !! r = Some (DomainDataObj d)
           ∧ _entry_datas d = ∅
           ∧ _stores d = ∅
           ∧ _gatt_services_cache d = LRU.mk 128 []
           ∧ _gatt_mtu_cache d = LRU.mk 128 []).
Proof.
  intros Hhass. unfold get at 1. rewrite Hhass.
  destruct (data !! DOMAIN) as [r0|] eqn:Hslot.
  - exists r0, h. split_and!; [done | | by intros ? [= <-] | done].
    unfold get. by rewrite Hhass, Hslot.
  - unfold alloc.
    assert (hass < length h) as Hlt by by eapply lookup_lt_Some.
    eexists _, _. split_and!; [done | | done |].
    + unfold get. rewrite list_lookup_insert_eq by (rewrite length_app; lia).
      by rewrite lookup_insert_eq.
    + intros _. split; [by apply lookup_ge_None_2|].
      exists DomainData_new. split_and!; try done.
      rewrite list_lookup_insert_ne by lia.
      by rewrite lookup_app_r, Nat.sub_diag.
Qed.

Lemma get_singleton_witness :
  ∃ r h1,
    get 0 [HomeAssistantObj ∅; HostObj] = (Return r, h1)
    ∧ get 0 h1 = (Return r, h1)
    ∧ (∀ r0, (∅ : gmap string ref) !! DOMAIN = Some r0 →
       r = r0 ∧ h1 = [HomeAssistantObj ∅; HostObj])
    ∧ ((∅ : gmap string ref) !! DOMAIN = None →
       [HomeAssistantObj ∅; HostObj] !! r = None
       ∧ ∃ d, h1 !! r = Some (DomainDataObj d)
           ∧ _entry_datas d = ∅
           ∧ _stores d = ∅
           ∧ _gatt_services_cache d = LRU.mk 128 []
           ∧ _gatt_mtu_cache d = LRU.mk 128 []).
Proof. exact (get_singleton 0 [HomeAssistantObj ∅; HostObj] ∅ eq_refl). Defined.

(** ** The GATT caches *)
Section lru_methods.
Context {V : Type}.
Implicit Types (k : Z) (v : V) (c : LRU.t V).

Lemma get_result k c : (LRU.get k c).1 = LRU.find k (LRU.items c).
Proof. unfold LRU.get. by destruct (LRU.find k (LRU.items c)). Qed.

Lemma get_miss k c : LRU.find k (LRU.items c) = None → LRU.get k c = (None, c).
Proof. intros Hnone. unfold LRU.get. by rewrite Hnone. Qed.

Lemma pop_miss k c : LRU.find k (LRU.items c) = None → LRU.pop k c = (None, c).
Proof. intros Hnone. unfold LRU.pop. by rewrite Hnone. Qed.

Lemma size_get k c : LRU.size (LRU.get k c).2 = LRU.size c.
Proof. unfold LRU.get. by destruct (LRU.find k (LRU.items c)). Qed.

Lemma size_pop k c : LRU.size (LRU.pop k c).2 = LRU.size c.
Proof. unfold LRU.pop. by destruct (LRU.find k (LRU.items c)). Qed.

(** An assignment to a key that is present: as many items as before, the
    key in front with the new value. *)
Lemma set_present k v c :
  LRU.wf c → is_Some (LRU.find k (LRU.items c)) →
  LRU.len (LRU.set k v c) = LRU.len c
  ∧ LRU.find k (LRU.items (LRU.set k v c)) = Some v
  ∧ head (LRU.items (LRU.set k v c)) = Some (k, v).
Proof.
  intros (Hpos & Hlen & Hnd) [v0 Hfind]. unfold LRU.set, LRU.len.
  rewrite Hfind. simpl. split_and!; [|by rewrite bool_decide_eq_true_2|done].
  apply remove_length_present; [done|].
  by apply find_Some_elem, (list_elem_of_fmap_2 fst) in Hfind.
Qed.

(** The item in front outlives the next assignment to another key. *)
Lemma set_after_front k v k' v' c :
  LRU.wf c → 2 ≤ LRU.size c → k' ≠ k → head (LRU.items c) = Some (k, v) →
  LRU.find k (LRU.items (LRU.set k' v' c)) = Some v.
Proof.
  intros Hwf Hsize Hne Hhead. rewrite set_items by done.
  destruct (LRU.items c) as [|[k1 v1] l]; [done|]. injection Hhead as -> ->.
  unfold LRU.remove. rewrite filter_cons_True by (simpl; congruence).
  destruct (LRU.size c) as [|[|n]]; [lia..|]. simpl.
  rewrite bool_decide_eq_false_2 by done. by rewrite bool_decide_eq_true_2.
Qed.

(** An assignment of a new key to a full container drops the last item. *)
Lemma set_full k v c :
  LRU.wf c → LRU.len c = LRU.size c → LRU.find k (LRU.items c) = None →
  LRU.items (LRU.set k v c) = (k, v) :: take (LRU.size c - 1) (LRU.items c).
Proof.
  intros Hwf Hfull Hnone. rewrite set_items by done.
  apply find_None in Hnone. rewrite remove_absent by done.
  destruct Hwf as (Hpos & _). destruct (LRU.size c) as [|n]; [lia|].
  simpl. by rewrite Nat.sub_0_r.
Qed.
End lru_methods.

Lemma with_gatt_services_cache_same self :
  with_gatt_services_cache (_gatt_services_cache self) self = self.
Proof. by destruct self. Qed.

Lemma with_gatt_mtu_cache_same self :
  with_gatt_mtu_cache (_gatt_mtu_cache self) self = self.
Proof. by destruct self. Qed.

Lemma get_gatt_services_cache_result address self :
  (get_gatt_services_cache address self).1
  = Return (LRU.find address (LRU.items (_gatt_services_cache self))).
Proof.
  unfold get_gatt_services_cache. rewrite <- get_result.
  by destruct (LRU.get address (_gatt_services_cache self)).
Qed.

Lemma get_gatt_mtu_cache_result address self :
  (get_gatt_mtu_cache address self).1
  = Return (LRU.find address (LRU.items (_gatt_mtu_cache self))).
Proof.
  unfold get_gatt_mtu_cache. rewrite <- get_result.
  by destruct (LRU.get address (_gatt_mtu_cache self)).
Qed.

(** The caches of a reachable registry have the size they were made with. *)
Lemma step_sizes st c :
  LRU.size (_gatt_services_cache (step st c).1) = LRU.size (_gatt_services_cache st.1)
  ∧ LRU.size (_gatt_mtu_cache (step st c).1) = LRU.size (_gatt_mtu_cache st.1).
Proof.
  destruct st as [self h].
  destruct c; simpl; unfold_methods; unfold get_or_create_store, alloc; simpl.
  - pose proof (size_get address (_gatt_services_cache self)).
    by destruct (LRU.get address (_gatt_services_cache self)).
  - by rewrite size_set.
  - pose proof (size_pop address (_gatt_services_cache self)).
    by destruct (LRU.pop address (_gatt_services_cache self)).
  - pose proof (size_get address (_gatt_mtu_cache self)).
    by destruct (LRU.get address (_gatt_mtu_cache self)).
  - by rewrite size_set.
  - pose proof (size_pop address (_gatt_mtu_cache self)).
    by destruct (LRU.pop address (_gatt_mtu_cache self)).
  - by destruct (_entry_datas self !! entry_id entry).
  - by case_bool_decide.
  - by destruct (_entry_datas self !! entry_id entry).
  - by destruct (_stores self !! entry_id entry).
Qed.

Lemma reachable_sizes st :
  reachable st →
  LRU.size (_gatt_services_cache st.1) = MAX_CACHED_SERVICES
  ∧ LRU.size (_gatt_mtu_cache st.1) = MAX_CACHED_SERVICES.
Proof.
  intros (cs & h0 & ->). unfold run.
  induction cs as [|c cs IH] using rev_ind; [done|].
  rewrite foldl_snoc. destruct (step_sizes (foldl step (DomainData_new, h0) cs) c).
  destruct IH. split; congruence.
Qed.

(** A run of [set_gatt_services_cache] is a run of assignments on the
    services cache. *)
Lemma run_set_gatt_services_cache kvs st :
  _gatt_services_cache
    (run (map (λ kv, SetGattServicesCache kv.1 kv.2) kvs) st).1
  = LRU.set_all kvs (_gatt_services_cache st.1).
Proof.
  unfold run. induction kvs as [|[k v] kvs IH] using rev_ind; [done|].
  rewrite map_app, foldl_app, set_all_snoc, <- IH. simpl.
  by destruct (foldl step st _).
Qed.

(** A run of [set_gatt_mtu_cache] is a run of assignments on the MTU
    cache. *)
Lemma run_set_gatt_mtu_cache kvs st :
  _gatt_mtu_cache (run (map (λ kv, SetGattMtuCache kv.1 kv.2) kvs) st).1
  = LRU.set_all kvs (_gatt_mtu_cache st.1).
Proof.
  unfold run. induction kvs as [|[k v] kvs IH] using rev_ind; [done|].
  rewrite map_app, foldl_app, set_all_snoc, <- IH. simpl.
  by destruct (foldl step st _).
Qed.

(** Once as many distinct keys as the size were assigned, the container is
    full. *)
Lemma set_all_full_len {V : Type} (kvs : list (Z * V)) (c : LRU.t V) :
  LRU.wf c → NoDup kvs.*1 → LRU.size c ≤ length kvs →
  LRU.len (LRU.set_all kvs c) = LRU.size c.
Proof.
  intros Hwf Hnd Hlen. unfold LRU.len. rewrite set_all_full by done.
  rewrite length_take, length_reverse. lia.
Qed.

(** C4.  On every registry reached from a new one each of the two caches
    holds at most 128 items.  An assignment of an address that is not
    cached to a cache that holds 128 items drops the least recently used
    item, the last of the recency list, and puts the new one in front.
    After 129 assignments to distinct addresses in the services cache, with
    no other call in between, the cache holds 128 items, a lookup of the
    first address finds nothing and a lookup of any of the 128 later
    addresses returns what was assigned to it; and the same holds of the
    MTU cache after 129 such assignments to it. *)
Theorem gatt_caches_bounded :
  (∀ st, reachable st →
     LRU.len (_gatt_services_cache st.1) ≤ 128
     ∧ LRU.len (_gatt_mtu_cache st.1) ≤ 128)
  ∧ (∀ st address services, reachable st →
     LRU.len (_gatt_services_cache st.1) = 128 →
     LRU.find address (LRU.items (_gatt_services_cache st.1)) = None →
     LRU.items (_gatt_services_cache (set_gatt_services_cache address services st.1).2)
     = (address, services) :: take 127 (LRU.items (_gatt_services_cache st.1)))
  ∧ (∀ st address mtu, reachable st →
     LRU.len (_gatt_mtu_cache st.1) = 128 →
     LRU.find address (LRU.items (_gatt_mtu_cache st.1)) = None →
     LRU.items (_gatt_mtu_cache (set_gatt_mtu_cache address mtu st.1).2)
     = (address, mtu) :: take 127 (LRU.items (_gatt_mtu_cache st.1)))
  ∧ (∀ st a0 s0 (rest : list (Z * BleakGATTServiceCollection)),
     reachable st → NoDup (a0 :: rest.*1) → length rest = 128 →
     let self' :=
       (run (map (λ kv, SetGattServicesCache kv.1 kv.2) ((a0, s0) :: rest)) st).1 in
     LRU.len (_gatt_services_cache self') = 128
     ∧ (get_gatt_services_cache a0 self').1 = Return None
     ∧ ∀ a s, (a, s) ∈ rest → (get_gatt_services_cache a self').1 = Return (Some s))
  ∧ (∀ st a0 m0 (rest : list (Z * Z)),
     reachable st → NoDup (a0 :: rest.*1) → length rest = 128 →
     let self' :=
       (run (map (λ kv, SetGattMtuCache kv.1 kv.2) ((a0, m0) :: rest)) st).1 in
     LRU.len (_gatt_mtu_cache self') = 128
     ∧ (get_gatt_mtu_cache a0 self').1 = Return None
     ∧ ∀ a m, (a, m) ∈ rest → (get_gatt_mtu_cache a self').1 = Return (Some m)).
Proof.
  split_and!.
  - intros st Hreach. destruct (reachable_sizes st Hreach) as [Hs Hm].
    apply reachable_inv in Hreach as [[(_ & Hls & _) (_ & Hlm & _)] _].
    unfold LRU.len. rewrite Hs in Hls. rewrite Hm in Hlm. done.
  - intros st address services Hreach Hfull Hnone.
    destruct (reachable_sizes st Hreach) as [Hs _].
    apply reachable_inv in Hreach as [[Hwf _] _].
    simpl. rewrite set_full, Hs; [done.. | by rewrite Hs |done].
  - intros st address mtu Hreach Hfull Hnone.
    destruct (reachable_sizes st Hreach) as [_ Hm].
    apply reachable_inv in Hreach as [[_ Hwf] _].
    simpl. rewrite set_full, Hm; [done.. | by rewrite Hm |done].
  - intros st a0 s0 rest Hreach Hnd Hlen self'.
    destruct (reachable_sizes st Hreach) as [Hs _].
    apply reachable_inv in Hreach as [[Hwf _] _].
    destruct (set_all_evicts a0 s0 rest _ Hwf Hnd) as [Hfirst Hlater];
      [by rewrite Hs|].
    subst self'. rewrite !get_gatt_services_cache_result, run_set_gatt_services_cache.
    split_and!.
    + rewrite set_all_full_len, Hs; [done | done | done |].
      rewrite Hs. unfold MAX_CACHED_SERVICES. simpl. lia.
    + by rewrite Hfirst.
    + intros a s Hin.
      rewrite get_gatt_services_cache_result, run_set_gatt_services_cache.
      by rewrite (Hlater a s Hin).
  - intros st a0 m0 rest Hreach Hnd Hlen self'.
    destruct (reachable_sizes st Hreach) as [_ Hm].
    apply reachable_inv in Hreach as [[_ Hwf] _].
    destruct (set_all_evicts a0 m0 rest _ Hwf Hnd) as [Hfirst Hlater];
      [by rewrite Hm|].
    subst self'. rewrite !get_gatt_mtu_cache_result, run_set_gatt_mtu_cache.
    split_and!.
    + rewrite set_all_full_len, Hm; [done | done | done |].
      rewrite Hm. unfold MAX_CACHED_SERVICES. simpl. lia.
    + by rewrite Hfirst.
    + intros a m Hin.
      rewrite get_gatt_mtu_cache_result, run_set_gatt_mtu_cache.
      by rewrite (Hlater a m Hin).
Qed.

(** C7.  A lookup in a cache returns and never raises, and so does a clear.
    For an address that is not cached the lookup returns [None] and the
    clear returns; both leave the registry as it was. *)
Theorem gatt_cache_miss_is_no_error (address : Z) (self : DomainData) :
  (∃ r, (get_gatt_services_cache address self).1 = Return r)
  ∧ (∃ r, (get_gatt_mtu_cache address self).1 = Return r)
  ∧ (clear_gatt_services_cache address self).1 = Return ()
  ∧ (clear_gatt_mtu_cache address self).1 = Return ()
  ∧ (LRU.find address (LRU.items (_gatt_services_cache self)) = None →
     get_gatt_services_cache address self = (Return None, self)
     ∧ clear_gatt_services_cache address self = (Return (), self))
  ∧ (LRU.find address (LRU.items (_gatt_mtu_cache self)) = None →
     get_gatt_mtu_cache address self = (Return None, self)
     ∧ clear_gatt_mtu_cache address self = (Return (), self)).
Proof.
  split_and!.
  - eexists. apply get_gatt_services_cache_result.
  - eexists. apply get_gatt_mtu_cache_result.
  - unfold clear_gatt_services_cache. by destruct (LRU.pop _ _).
  - unfold clear_gatt_mtu_cache. by destruct (LRU.pop _ _).
  - intros Hnone. unfold get_gatt_services_cache, clear_gatt_services_cache.
    rewrite get_miss, pop_miss by done.
    by rewrite with_gatt_services_cache_same.
  - intros Hnone. unfold get_gatt_mtu_cache, clear_gatt_mtu_cache.
    rewrite get_miss, pop_miss by done.
    by rewrite with_gatt_mtu_cache_same.
Qed.

(** C9.  A lookup, an assignment or a clear in the services cache leaves the
    MTU cache as it was, and one in the MTU cache leaves the services cache
    as it was.  So a lookup of an address in one cache returns the same
    before and after the other cache was assigned to or cleared for that
    address. *)
Theorem gatt_caches_independent (address : Z) (services : BleakGATTServiceCollection)
    (mtu : Z) (self : DomainData) :
  _gatt_mtu_cache (get_gatt_services_cache address self).2 = _gatt_mtu_cache self
  ∧ _gatt_mtu_cache (set_gatt_services_cache address services self).2 = _gatt_mtu_cache self
  ∧ _gatt_mtu_cache (clear_gatt_services_cache address self).2 = _gatt_mtu_cache self
  ∧ _gatt_services_cache (get_gatt_mtu_cache address self).2 = _gatt_services_cache self
  ∧ _gatt_services_cache (set_gatt_mtu_cache address mtu self).2 = _gatt_services_cache self
  ∧ _gatt_services_cache (clear_gatt_mtu_cache address self).2 = _gatt_services_cache self
  ∧ (get_gatt_mtu_cache address (set_gatt_services_cache address services self).2).1
    = (get_gatt_mtu_cache address self).1
  ∧ (get_gatt_mtu_cache address (clear_gatt_services_cache address self).2).1
    = (get_gatt_mtu_cache address self).1
  ∧ (get_gatt_services_cache address (set_gatt_mtu_cache address mtu self).2).1
    = (get_gatt_services_cache address self).1
  ∧ (get_gatt_services_cache address (clear_gatt_mtu_cache address self).2).1
    = (get_gatt_services_cache address self).1.
Proof.
  assert (_gatt_mtu_cache (clear_gatt_services_cache address self).2
          = _gatt_mtu_cache self) as Hcs.
  { unfold clear_gatt_services_cache. by destruct (LRU.pop _ _). }
  assert (_gatt_services_cache (clear_gatt_mtu_cache address self).2
          = _gatt_services_cache self) as Hcm.
  { unfold clear_gatt_mtu_cache. by destruct (LRU.pop _ _). }
  split_and!.
  - unfold get_gatt_services_cache. by destruct (LRU.get _ _).
  - done.
  - done.
  - unfold get_gatt_mtu_cache. by destruct (LRU.get _ _).
  - done.
  - done.
  - by rewrite !get_gatt_mtu_cache_result.
  - by rewrite !get_gatt_mtu_cache_result, Hcs.
  - by rewrite !get_gatt_services_cache_result.
  - by rewrite !get_gatt_services_cache_result, Hcm.
Qed.

Lemma gatt_caches_bounded_witness :
  let services := map (λ i, (Z.of_nat i, i)) (seq 1 128) in
  let mtus := map (λ i, (Z.of_nat i, Z.of_nat (20 + i))) (seq 1 128) in
  let st0 := run [SetGattServicesCache 500 5; SetGattMtuCache 500 23]
               (DomainData_new, []) in
  let self1 :=
    (run (map (λ kv, SetGattServicesCache kv.1 kv.2) ((0%Z, 0) :: services)) st0).1 in
  let self2 :=
    (run (map (λ kv, SetGattMtuCache kv.1 kv.2) ((0%Z, 20%Z) :: mtus)) st0).1 in
  (LRU.len (_gatt_services_cache self1) = 128
   ∧ (get_gatt_services_cache 0 self1).1 = Return None
   ∧ (get_gatt_services_cache 1 self1).1 = Return (Some 1)
   ∧ (get_gatt_services_cache 128 self1).1 = Return (Some 128))
  ∧ (LRU.len (_gatt_mtu_cache self2) = 128
     ∧ (get_gatt_mtu_cache 0 self2).1 = Return None
     ∧ (get_gatt_mtu_cache 1 self2).1 = Return (Some 21%Z)
     ∧ (get_gatt_mtu_cache 128 self2).1 = Return (Some 148%Z))
  ∧ LRU.items (_gatt_services_cache (set_gatt_services_cache 900 9 self1).2)
    = (900%Z, 9) :: take 127 (LRU.items (_gatt_services_cache self1))
  ∧ LRU.items (_gatt_mtu_cache (set_gatt_mtu_cache 900 64 self2).2)
    = (900%Z, 64%Z) :: take 127 (LRU.items (_gatt_mtu_cache self2))
  ∧ LRU.len (_gatt_services_cache self2) ≤ 128
  ∧ LRU.len (_gatt_mtu_cache self1) ≤ 128.
Proof.
  intros services mtus st0 self1 self2.
  destruct gatt_caches_bounded as (Hbound & Hfull1 & Hfull2 & Hservices & Hmtus).
  assert (reachable st0) as Hreach.
  { by exists [SetGattServicesCache 500 5; SetGattMtuCache 500 23], []. }
  destruct (Hservices st0 0%Z 0 services Hreach)
    as (Hlen1 & Hfirst1 & Hlater1).
  { apply (bool_decide_unpack _). vm_compute. exact I. }
  { reflexivity. }
  destruct (Hmtus st0 0%Z 20%Z mtus Hreach) as (Hlen2 & Hfirst2 & Hlater2).
  { apply (bool_decide_unpack _). vm_compute. exact I. }
  { reflexivity. }
  split_and!.
  - exact Hlen1.
  - exact Hfirst1.
  - apply Hlater1. apply (bool_decide_unpack _). vm_compute. exact I.
  - apply Hlater1. apply (bool_decide_unpack _). vm_compute. exact I.
  - exact Hlen2.
  - exact Hfirst2.
  - apply Hlater2. apply (bool_decide_unpack _). vm_compute. exact I.
  - apply Hlater2. apply (bool_decide_unpack _). vm_compute. exact I.
  - apply (Hfull1 (run _ st0) 900%Z 9 (reachable_run _ _ Hreach) Hlen1).
    vm_compute. reflexivity.
  - apply (Hfull2 (run _ st0) 900%Z 64%Z (reachable_run _ _ Hreach) Hlen2).
    vm_compute. reflexivity.
  - exact (proj1 (Hbound (run _ st0) (reachable_run _ _ Hreach))).
  - exact (proj2 (Hbound (run _ st0) (reachable_run _ _ Hreach))).
Defined.

Lemma gatt_cache_miss_is_no_error_witness :
  get_gatt_services_cache 5 DomainData_new = (Return None, DomainData_new)
  ∧ clear_gatt_services_cache 5 DomainData_new = (Return (), DomainData_new)
  ∧ get_gatt_mtu_cache 5 DomainData_new = (Return None, DomainData_new)
  ∧ clear_gatt_mtu_cache 5 DomainData_new = (Return (), DomainData_new).
Proof.
  destruct (gatt_cache_miss_is_no_error 5 DomainData_new)
    as (_ & _ & _ & _ & Hs & Hm).
  destruct (Hs eq_refl) as [Hget Hclear]. destruct (Hm eq_refl) as [Hget' Hclear'].
  by split_and!.
Defined.

(** C8.  On a registry reached from a new one, an assignment to an address
    that a cache already holds stores the new value, leaves the number of
    items of that cache as it was, and moves the item to the front of the
    recency list; the next assignment, to whatever other address, does not
    drop it. *)
Theorem gatt_cache_overwrite (address : Z) (self : DomainData) (h : heap) :
  reachable (self, h) →
  (∀ services,
     is_Some (LRU.find address (LRU.items (_gatt_services_cache self))) →
     let self' := (set_gatt_services_cache address services self).2 in
     LRU.len (_gatt_services_cache self') = LRU.len (_gatt_services_cache self)
     ∧ (get_gatt_services_cache address self').1 = Return (Some services)
     ∧ head (LRU.items (_gatt_services_cache self')) = Some (address, services)
     ∧ ∀ other services', other ≠ address →
         (get_gatt_services_cache address
            (set_gatt_services_cache other services' self').2).1
         = Return (Some services))
  ∧ (∀ mtu,
     is_Some (LRU.find address (LRU.items (_gatt_mtu_cache self))) →
     let self' := (set_gatt_mtu_cache address mtu self).2 in
     LRU.len (_gatt_mtu_cache self') = LRU.len (_gatt_mtu_cache self)
     ∧ (get_gatt_mtu_cache address self').1 = Return (Some mtu)
     ∧ head (LRU.items (_gatt_mtu_cache self')) = Some (address, mtu)
     ∧ ∀ other mtu', other ≠ address →
         (get_gatt_mtu_cache address (set_gatt_mtu_cache other mtu' self').2).1
         = Return (Some mtu)).
Proof.
  intros Hreach.
  destruct (reachable_sizes _ Hreach) as [Hs Hm].
  destruct (reachable_inv _ Hreach) as [[Hwfs Hwfm] _].
  simpl in Hs, Hm, Hwfs, Hwfm. split.
  - intros services Hsome self'.
    destruct (set_present address services _ Hwfs Hsome) as (Hlen & Hfind & Hhead).
    subst self'. simpl. split_and!; [done | | done |].
    + rewrite get_gatt_services_cache_result. simpl. by rewrite Hfind.
    + intros other services' Hne. rewrite get_gatt_services_cache_result. simpl.
      f_equal. apply set_after_front; [by apply wf_set | | done..].
      rewrite size_set, Hs. unfold MAX_CACHED_SERVICES. lia.
  - intros mtu Hsome self'.
    destruct (set_present address mtu _ Hwfm Hsome) as (Hlen & Hfind & Hhead).
    subst self'. simpl. split_and!; [done | | done |].
    + rewrite get_gatt_mtu_cache_result. simpl. by rewrite Hfind.
    + intros other mtu' Hne. rewrite get_gatt_mtu_cache_result. simpl.
      f_equal. apply set_after_front; [by apply wf_set | | done..].
      rewrite size_set, Hm. unfold MAX_CACHED_SERVICES. lia.
Qed.

Lemma gatt_cache_overwrite_witness :
  let self :=
    (run [SetGattServicesCache 10 100; SetGattServicesCache 11 101;
          SetGattMtuCache 10 23]
       (DomainData_new, [])).1 in
  let self' := (set_gatt_services_cache 10 200 self).2 in
  LRU.len (_gatt_services_cache self') = 2
  ∧ (get_gatt_services_cache 10 self').1 = Return (Some 200)
  ∧ head (LRU.items (_gatt_services_cache self')) = Some (10%Z, 200)
  ∧ (get_gatt_services_cache 10 (set_gatt_services_cache 12 102 self').2).1
    = Return (Some 200)
  ∧ (get_gatt_mtu_cache 10 (set_gatt_mtu_cache 10 185 self).2).1 = Return (Some 185%Z).
Proof.
  intros self self'.
  assert (reachable (self, [])) as Hreach.
  { by exists [SetGattServicesCache 10 100; SetGattServicesCache 11 101;
               SetGattMtuCache 10 23], []. }
  destruct (gatt_cache_overwrite 10 self [] Hreach) as [Hs Hm].
  destruct (Hs 200) as (Hlen & Hget & Hhead & Hnext); [by eexists|].
  destruct (Hm 185%Z) as (_ & Hget' & _); [by eexists|].
  split_and!; [exact Hlen | exact Hget | exact Hhead | by apply Hnext | exact Hget'].
Defined.

(** * Further properties *)

(** ** Entry data: load, unload, reload *)

(** X1.  On a registry with nothing registered under the entry's
    identifier, [set_entry_data] followed by [pop_entry_data] hands the data
    back and leaves the registry exactly as it was before the two calls. *)
Theorem set_pop_entry_data_restores (entry : ConfigEntry) (entry_data : RuntimeEntryData)
    (self : DomainData) :
  _entry_datas self !! entry_id entry = None →
  pop_entry_data entry (set_entry_data entry entry_data self).2 = (Return entry_data, self).
Proof.
  intros Hnone. unfold set_entry_data.
  rewrite bool_decide_eq_false_2 by (rewrite Hnone; by intros [? ?]).
  unfold pop_entry_data. simpl. rewrite lookup_insert_eq. f_equal.
  destruct self as [eds sts svc mtu]. unfold with_entry_datas. simpl in *.
  f_equal. by apply delete_insert_id.
Qed.

Lemma set_pop_entry_data_restores_witness :
  let self := (set_entry_data garage 9 DomainData_new).2 in
  pop_entry_data kitchen (set_entry_data kitchen 7 self).2 = (Return 7, self).
Proof.
  exact (set_pop_entry_data_restores kitchen 7
           (set_entry_data garage 9 DomainData_new).2 eq_refl).
Defined.

(** X2.  When [entry_data] is registered under the entry's identifier,
    [pop_entry_data] followed by [set_entry_data] of the same data returns
    and leaves the registry exactly as it was: an entry can be unloaded and
    loaded again. *)
Theorem pop_set_entry_data_restores (entry : ConfigEntry) (entry_data : RuntimeEntryData)
    (self : DomainData) :
  _entry_datas self !! entry_id entry = Some entry_data →
  (pop_entry_data entry self).1 = Return entry_data
  ∧ set_entry_data entry entry_data (pop_entry_data entry self).2 = (Return (), self).
Proof.
  intros Hsome. unfold pop_entry_data. rewrite Hsome. simpl. split; [done|].
  unfold set_entry_data. simpl.
  rewrite bool_decide_eq_false_2 by (rewrite lookup_delete_eq; by intros [? ?]).
  f_equal. destruct self as [eds sts svc mtu]. unfold with_entry_datas. simpl in *.
  f_equal. by apply insert_delete_id.
Qed.

Lemma pop_set_entry_data_restores_witness :
  let self := (set_entry_data kitchen 7 (set_entry_data garage 9 DomainData_new).2).2 in
  (pop_entry_data kitchen self).1 = Return 7
  ∧ set_entry_data kitchen 7 (pop_entry_data kitchen self).2 = (Return (), self).
Proof.
  exact (pop_set_entry_data_restores kitchen 7
           (set_entry_data kitchen 7 (set_entry_data garage 9 DomainData_new).2).2
           eq_refl).
Defined.

(** What the entry-data methods return or raise for an entry is decided by
    what the map holds under its identifier. *)
Lemma entry_results_lookup (entry : ConfigEntry) (entry_data : RuntimeEntryData)
    (self self' : DomainData) :
  _entry_datas self !! entry_id entry = _entry_datas self' !! entry_id entry →
  (get_entry_data entry self).1 = (get_entry_data entry self').1
  ∧ (set_entry_data entry entry_data self).1 = (set_entry_data entry entry_data self').1
  ∧ (pop_entry_data entry self).1 = (pop_entry_data entry self').1.
Proof.
  intros Heq. unfold get_entry_data, set_entry_data, pop_entry_data.
  rewrite Heq. split_and!; by repeat case_match.
Qed.

(** X3.  Registering or removing the data of one entry changes nothing for
    an entry with another identifier: [get_entry_data], [set_entry_data]
    and [pop_entry_data] on the other entry return or raise as they would
    have without the call. *)
Theorem entry_data_other_entry (entry1 entry2 : ConfigEntry)
    (data1 data2 : RuntimeEntryData) (self : DomainData) :
  entry_id entry1 ≠ entry_id entry2 →
  (get_entry_data entry2 (set_entry_data entry1 data1 self).2).1
  = (get_entry_data entry2 self).1
  ∧ (get_entry_data entry2 (pop_entry_data entry1 self).2).1
    = (get_entry_data entry2 self).1
  ∧ (set_entry_data entry2 data2 (set_entry_data entry1 data1 self).2).1
    = (set_entry_data entry2 data2 self).1
  ∧ (set_entry_data entry2 data2 (pop_entry_data entry1 self).2).1
    = (set_entry_data entry2 data2 self).1
  ∧ (pop_entry_data entry2 (set_entry_data entry1 data1 self).2).1
    = (pop_entry_data entry2 self).1
  ∧ (pop_entry_data entry2 (pop_entry_data entry1 self).2).1
    = (pop_entry_data entry2 self).1.
Proof.
  intros Hne.
  assert (_entry_datas (set_entry_data entry1 data1 self).2 !! entry_id entry2
          = _entry_datas self !! entry_id entry2) as Hset.
  { unfold set_entry_data. case_bool_decide; [done|]. simpl.
    by rewrite lookup_insert_ne. }
  assert (_entry_datas (pop_entry_data entry1 self).2 !! entry_id entry2
          = _entry_datas self !! entry_id entry2) as Hpop.
  { unfold pop_entry_data.
    destruct (_entry_datas self !! entry_id entry1); [|done]. simpl.
    by rewrite lookup_delete_ne. }
  destruct (entry_results_lookup entry2 data2 _ _ Hset) as (? & ? & ?).
  destruct (entry_results_lookup entry2 data2 _ _ Hpop) as (? & ? & ?).
  by split_and!.
Qed.

Lemma entry_data_other_entry_witness :
  let self := (set_entry_data garage 9 DomainData_new).2 in
  (get_entry_data garage (set_entry_data kitchen 7 self).2).1 = Return 9
  ∧ (get_entry_data garage (pop_entry_data kitchen self).2).1 = Return 9.
Proof.
  intros self.
  destruct (entry_data_other_entry kitchen garage 7 9 self) as (Hset & Hpop & _);
    [discriminate|].
  split; [exact Hset | exact Hpop].
Defined.

(** ** Each method keeps to its own part *)

(** X4.  No method touches a part of the registry that is not its own.  The
    entry-data methods leave the store map, both caches and the object
    store as they were, so removing the data of an entry drops neither its
    store nor anything cached; [get_or_create_store] leaves the entry data
    and both caches; the cache methods leave the entry data, the store map
    and the object store. *)
Theorem methods_frame (c : call) (self : DomainData) (h : heap) :
  match c with
  | GetEntryData _ | SetEntryData _ _ | PopEntryData _ =>
      _stores (step (self, h) c).1 = _stores self
      ∧ _gatt_services_cache (step (self, h) c).1 = _gatt_services_cache self
      ∧ _gatt_mtu_cache (step (self, h) c).1 = _gatt_mtu_cache self
      ∧ (step (self, h) c).2 = h
  | GetOrCreateStore _ _ =>
      _entry_datas (step (self, h) c).1 = _entry_datas self
      ∧ _gatt_services_cache (step (self, h) c).1 = _gatt_services_cache self
      ∧ _gatt_mtu_cache (step (self, h) c).1 = _gatt_mtu_cache self
  | _ =>
      _entry_datas (step (self, h) c).1 = _entry_datas self
      ∧ _stores (step (self, h) c).1 = _stores self
      ∧ (step (self, h) c).2 = h
  end.
Proof.
  destruct c; simpl; unfold_methods; unfold get_or_create_store, alloc; simpl;
    repeat case_match; by simplify_eq.
Qed.

(** ** Stores over the life of a registry *)

(** No method changes or drops an object of the object store. *)
Lemma step_heap_mono st c (r : ref) o :
  st.2 !! r = Some o → (step st c).2 !! r = Some o.
Proof.
  destruct st as [self h]. simpl. intros Hr.
  destruct c; simpl; try done.
  unfold get_or_create_store, alloc.
  destruct (_stores self !! entry_id entry); simpl;
    (rewrite lookup_app_l; [done | by eapply lookup_lt_Some]).
Qed.

Lemma run_heap_mono cs st (r : ref) o :
  st.2 !! r = Some o → (run cs st).2 !! r = Some o.
Proof.
  intros Hr. unfold run. induction cs as [|c cs IH] using rev_ind; [done|].
  rewrite foldl_snoc. by apply step_heap_mono.
Qed.

(** X5.  On a registry reached from a new one, the first
    [get_or_create_store] for an identifier returns a handle that named no
    object before and that no identifier of the store map has; the object
    it names afterwards is a store constructed with the caller's [hass],
    version 1, the key ["esphome."] followed by the identifier, and the
    JSON encoder.  The store map gains this one handle, and every object
    that existed is as it was. *)
Theorem get_or_create_store_fresh (hass : ref) (entry : ConfigEntry)
    (self : DomainData) (h : heap) :
  reachable (self, h) →
  _stores self !! entry_id entry = None →
  ∃ r self' h',
    get_or_create_store hass entry self h = (r, self', h')
    ∧ h !! r = None
    ∧ (∀ id r', _stores self !! id = Some r' → r' ≠ r)
    ∧ h' !! r = Some (ESPHomeStorageObj
        {| store_hass := hass; store_version := 1;
           store_key := "esphome." +:+ entry_id entry;
           store_encoder := JSONEncoder |})
    ∧ _stores self' = <[entry_id entry := r]> (_stores self)
    ∧ ∀ r' o, h !! r' = Some o → h' !! r' = Some o.
Proof.
  intros Hreach Hnone. apply reachable_inv in Hreach as [_ Hinv]. simpl in Hinv.
  unfold get_or_create_store, alloc. rewrite Hnone.
  eexists _, _, _. split_and!; [done | | | | done |].
  - by apply lookup_ge_None_2.
  - intros id r' Hr' ->. destruct (Hinv id _ Hr') as [hs Hobj].
    apply lookup_lt_Some in Hobj. lia.
  - by rewrite lookup_app_r, Nat.sub_diag.
  - intros r' o Hr'. rewrite lookup_app_l; [done | by eapply lookup_lt_Some].
Qed.

Lemma get_or_create_store_fresh_witness :
  let st := run [GetOrCreateStore 0 garage] (DomainData_new, [HomeAssistantObj ∅]) in
  ∃ r self' h',
    get_or_create_store 0 kitchen st.1 st.2 = (r, self', h')
    ∧ st.2 !! r = None
    ∧ (∀ id r', _stores st.1 !! id = Some r' → r' ≠ r)
    ∧ h' !! r = Some (ESPHomeStorageObj
        {| store_hass := 0; store_version := 1;
           store_key := "esphome." +:+ entry_id kitchen;
           store_encoder := JSONEncoder |})
    ∧ _stores self' = <[entry_id kitchen := r]> (_stores st.1)
    ∧ ∀ r' o, st.2 !! r' = Some o → h' !! r' = Some o.
Proof.
  apply (get_or_create_store_fresh 0 kitchen).
  - exists [GetOrCreateStore 0 garage], [HomeAssistantObj ∅].
    apply surjective_pairing.
  - reflexivity.
Defined.

(** X6.  The store of an identifier keeps the [hass] of the call that
    created it.  After [get_or_create_store hass1] created the store, and
    whatever calls of the registry's methods followed, a call
    [get_or_create_store hass2] for the same identifier returns the first
    handle, and the object it names still has [hass1]: the [hass] of a later
    call is not used. *)
Theorem get_or_create_store_keeps_first_hass (hass1 hass2 : ref)
    (entry1 entry2 : ConfigEntry) (cs : list call) (self : DomainData) (h : heap) :
  _stores self !! entry_id entry1 = None →
  entry_id entry1 = entry_id entry2 →
  ∃ r1 self1 h1 self2 h2,
    get_or_create_store hass1 entry1 self h = (r1, self1, h1)
    ∧ get_or_create_store hass2 entry2 (run cs (self1, h1)).1 (run cs (self1, h1)).2
      = (r1, self2, h2)
    ∧ h2 !! r1 = Some (ESPHomeStorageObj
        {| store_hass := hass1; store_version := 1;
           store_key := "esphome." +:+ entry_id entry1;
           store_encoder := JSONEncoder |}).
Proof.
  intros Hnone Hid.
  set (h1 := h ++ [store_for hass1 (entry_id entry1)]).
  set (self1 := with_stores (<[entry_id entry1 := length h]> (_stores self)) self).
  assert (get_or_create_store hass1 entry1 self h = (length h, self1, h1)) as Hfirst.
  { unfold get_or_create_store, alloc. by rewrite Hnone. }
  assert (_stores self1 !! entry_id entry1 = Some (length h)) as Hl1.
  { simpl. apply lookup_insert_eq. }
  assert (h1 !! length h = Some (store_for hass1 (entry_id entry1))) as Hobj.
  { subst h1. by rewrite lookup_app_r, Nat.sub_diag. }
  apply (run_stores_mono cs (self1, h1)) in Hl1.
  apply (run_heap_mono cs (self1, h1)) in Hobj.
  exists (length h), self1, h1.
  destruct (run cs (self1, h1)) as [self1' h1']. simpl in Hl1, Hobj |- *.
  unfold get_or_create_store at 2. unfold alloc. rewrite <- Hid, Hl1.
  eexists _, _. split_and!; [done..|].
  rewrite lookup_app_l; [done | by eapply lookup_lt_Some].
Qed.

Lemma get_or_create_store_keeps_first_hass_witness :
  ∃ r1 self1 h1 self2 h2,
    get_or_create_store 0 kitchen DomainData_new [HomeAssistantObj ∅; HomeAssistantObj ∅]
    = (r1, self1, h1)
    ∧ get_or_create_store 1 kitchen_renamed
        (run [PopEntryData kitchen; GetOrCreateStore 1 garage] (self1, h1)).1
        (run [PopEntryData kitchen; GetOrCreateStore 1 garage] (self1, h1)).2
      = (r1, self2, h2)
    ∧ h2 !! r1 = Some (ESPHomeStorageObj
        {| store_hass := 0; store_version := 1;
           store_key := "esphome." +:+ entry_id kitchen;
           store_encoder := JSONEncoder |}).
Proof.
  exact (get_or_create_store_keeps_first_hass 0 1 kitchen kitchen_renamed
           [PopEntryData kitchen; GetOrCreateStore 1 garage]
           DomainData_new [HomeAssistantObj ∅; HomeAssistantObj ∅] eq_refl eq_refl).
Defined.

(** X7.  Over any sequence of calls, every [get_or_create_store] constructs
    one object and no other method constructs any: the object store grows
    by the number of [get_or_create_store] calls.  The store map gains
    exactly the identifiers that were asked for, however often each was
    asked for, and loses none. *)
Theorem run_store_objects (cs : list call) (st : DomainData * heap) :
  length (run cs st).2 = length st.2 + length (requested_ids cs)
  ∧ dom (_stores (run cs st).1) = dom (_stores st.1) ∪ list_to_set (requested_ids cs).
Proof.
  unfold run, requested_ids. induction cs as [|c cs [IHlen IHdom]] using rev_ind.
  - simpl. split; [lia | by rewrite (right_id_L ∅ (∪))].
  - rewrite foldl_snoc, omap_app, length_app, list_to_set_app_L, (assoc_L (∪)).
    rewrite <- IHdom. destruct (foldl step st cs) as [self h]. simpl in IHlen.
    destruct c; simpl; rewrite (right_id_L ∅ (∪));
      try (unfold_methods; simpl; repeat case_match; simpl; (split; [lia | done])).
    unfold get_or_create_store, alloc.
    destruct (_stores self !! entry_id entry) as [r|] eqn:Hlook; simpl;
      rewrite length_app; simpl; (split; [lia|]).
    + symmetry. rewrite (comm_L (∪)). apply subseteq_union_1_L.
      apply singleton_subseteq_l. by eapply elem_of_dom_2.
    + by rewrite dom_insert_L, (comm_L (∪)).
Qed.

(** ** The registry slot of [hass.data] *)

Lemma get_taken (hass : ref) (h : heap) (data : gmap string ref) (r : ref) :
  h !! hass = Some (HomeAssistantObj data) → data !! DOMAIN = Some r →
  get hass h = (Return r, h).
Proof. intros Hhass Hslot. unfold get. by rewrite Hhass, Hslot. Qed.

Lemma get_free (hass : ref) (h : heap) (data : gmap string ref) :
  h !! hass = Some (HomeAssistantObj data) → data !! DOMAIN = None →
  get hass h
  = (Return (length h),
     <[hass := HomeAssistantObj (<[DOMAIN := length h]> data)]>
       (h ++ [DomainDataObj DomainData_new])).
Proof. intros Hhass Hslot. unfold get, alloc. by rewrite Hhass, Hslot. Qed.

(** X8.  [DomainData.get] on a [HomeAssistant] object changes nothing but the
    slot [DOMAIN] of its [data]: afterwards that slot holds the reference
    that was returned, every other key of [hass.data] holds what it held,
    every other object is as it was, and at most one object was
    constructed. *)
Theorem get_frame (hass : ref) (h : heap) (data : gmap string ref) :
  h !! hass = Some (HomeAssistantObj data) →
  ∃ r h1 data1,
    get hass h = (Return r, h1)
    ∧ h1 !! hass = Some (HomeAssistantObj data1)
    ∧ data1 !! DOMAIN = Some r
    ∧ (∀ k, k ≠ DOMAIN → data1 !! k = data !! k)
    ∧ (∀ r' o, r' ≠ hass → h !! r' = Some o → h1 !! r' = Some o)
    ∧ length h ≤ length h1 ≤ S (length h).
Proof.
  intros Hhass. destruct (data !! DOMAIN) as [r0|] eqn:Hslot.
  - exists r0, h, data. rewrite (get_taken _ _ _ _ Hhass Hslot).
    split_and!; [done.. | lia | lia].
  - assert (hass < length h) as Hlt by by eapply lookup_lt_Some.
    rewrite (get_free _ _ _ Hhass Hslot). eexists _, _, _. split_and!; [done | | | | | |].
    + apply list_lookup_insert_eq. rewrite length_app. lia.
    + apply lookup_insert_eq.
    + intros k Hk. by rewrite lookup_insert_ne.
    + intros r' o Hr' Ho. rewrite list_lookup_insert_ne by done.
      rewrite lookup_app_l; [done | by eapply lookup_lt_Some].
    + rewrite length_insert, length_app. lia.
    + rewrite length_insert, length_app. simpl. lia.
Qed.

Lemma get_frame_witness :
  ∃ r h1 data1,
    get 1 [HostObj; HomeAssistantObj {["zha" := 0]}] = (Return r, h1)
    ∧ h1 !! 1 = Some (HomeAssistantObj data1)
    ∧ data1 !! DOMAIN = Some r
    ∧ (∀ k, k ≠ DOMAIN → data1 !! k = ({["zha" := 0]} : gmap string ref) !! k)
    ∧ (∀ r' o, r' ≠ 1 →
         [HostObj; HomeAssistantObj {["zha" := 0]}] !! r' = Some o → h1 !! r' = Some o)
    ∧ length [HostObj; HomeAssistantObj {["zha" := 0]}] ≤ length h1
      ≤ S (length [HostObj; HomeAssistantObj {["zha" := 0]}]).
Proof.
  exact (get_frame 1 [HostObj; HomeAssistantObj {["zha" := 0]}] {["zha" := 0]} eq_refl).
Defined.

(** X9.  The registry belongs to the [hass] it was asked from.  Two
    different [HomeAssistant] objects whose slots are free get two different
    registries, and creating the second does not disturb the first: later
    calls return each [hass] its own registry and change nothing. *)
Theorem get_per_hass (hass1 hass2 : ref) (h : heap) (data1 data2 : gmap string ref) :
  hass1 ≠ hass2 →
  h !! hass1 = Some (HomeAssistantObj data1) →
  h !! hass2 = Some (HomeAssistantObj data2) →
  data1 !! DOMAIN = None →
  data2 !! DOMAIN = None →
  ∃ r1 h1 r2 h2,
    get hass1 h = (Return r1, h1)
    ∧ get hass2 h1 = (Return r2, h2)
    ∧ r1 ≠ r2
    ∧ h2 !! r1 = Some (DomainDataObj DomainData_new)
    ∧ h2 !! r2 = Some (DomainDataObj DomainData_new)
    ∧ get hass1 h2 = (Return r1, h2)
    ∧ get hass2 h2 = (Return r2, h2).
Proof.
  intros Hne Hh1 Hh2 Hfree1 Hfree2.
  assert (hass1 < length h) as Hlt1 by by eapply lookup_lt_Some.
  assert (hass2 < length h) as Hlt2 by by eapply lookup_lt_Some.
  rewrite (get_free _ _ _ Hh1 Hfree1).
  set (h1 := <[hass1 := _]> (h ++ _)).
  assert (length h1 = S (length h)) as Hlen1.
  { subst h1. rewrite length_insert, length_app. simpl. lia. }
  assert (h1 !! hass2 = Some (HomeAssistantObj data2)) as Hh2'.
  { subst h1. rewrite list_lookup_insert_ne by done. by rewrite lookup_app_l. }
  assert (h1 !! hass1 = Some (HomeAssistantObj (<[DOMAIN := length h]> data1))) as Hh1'.
  { subst h1. apply list_lookup_insert_eq. rewrite length_app. lia. }
  assert (h1 !! length h = Some (DomainDataObj DomainData_new)) as Hr1.
  { subst h1. rewrite list_lookup_insert_ne by lia.
    by rewrite lookup_app_r, Nat.sub_diag. }
  exists (length h), h1. rewrite (get_free _ _ _ Hh2' Hfree2).
  set (h2 := <[hass2 := _]> (h1 ++ _)).
  eexists _, _. split_and!; [done | done | lia | | | |].
  - subst h2. rewrite list_lookup_insert_ne by lia.
    rewrite lookup_app_l; [done | lia].
  - subst h2. rewrite list_lookup_insert_ne by lia.
    by rewrite lookup_app_r, Nat.sub_diag.
  - apply (get_taken _ _ (<[DOMAIN := length h]> data1)).
    + subst h2. rewrite list_lookup_insert_ne by done.
      rewrite lookup_app_l; [done | lia].
    + apply lookup_insert_eq.
  - apply (get_taken _ _ (<[DOMAIN := length h1]> data2)).
    + subst h2. apply list_lookup_insert_eq. rewrite length_app. lia.
    + apply lookup_insert_eq.
Qed.

Lemma get_per_hass_witness :
  ∃ r1 h1 r2 h2,
    get 0 [HomeAssistantObj ∅; HomeAssistantObj ∅] = (Return r1, h1)
    ∧ get 1 h1 = (Return r2, h2)
    ∧ r1 ≠ r2
    ∧ h2 !! r1 = Some (DomainDataObj DomainData_new)
    ∧ h2 !! r2 = Some (DomainDataObj DomainData_new)
    ∧ get 0 h2 = (Return r1, h2)
    ∧ get 1 h2 = (Return r2, h2).
Proof.
  apply (get_per_hass 0 1 [HomeAssistantObj ∅; HomeAssistantObj ∅] ∅ ∅);
    [discriminate | reflexivity..].
Defined.

(** ** Lookups after a change of a cache *)
Section lru_lookup.
Context {V : Type}.
Implicit Types (k : Z) (v w : V) (l : list (Z * V)) (c : LRU.t V).

Lemma find_take_Some k w n l :
  LRU.find k (take n l) = Some w → LRU.find k l = Some w.
Proof.
  revert n. induction l as [|[k1 v1] l IH]; intros [|n]; simpl; try done.
  case_bool_decide; [done | apply IH].
Qed.

Lemma find_set_eq k v c :
  LRU.wf c → LRU.find k (LRU.items (LRU.set k v c)) = Some v.
Proof.
  intros Hwf. rewrite set_items by done. destruct Hwf as (Hpos & _).
  destruct (LRU.size c) as [|n]; [lia|]. simpl. by rewrite bool_decide_eq_true_2.
Qed.

Lemma find_set_ne_Some k k' v w c :
  LRU.wf c → k' ≠ k →
  LRU.find k' (LRU.items (LRU.set k v c)) = Some w →
  LRU.find k' (LRU.items c) = Some w.
Proof.
  intros Hwf Hne. rewrite set_items by done. destruct Hwf as (Hpos & _).
  destruct (LRU.size c) as [|n]; [lia|]. simpl.
  rewrite bool_decide_eq_false_2 by congruence.
  intros Hfind%find_take_Some. by rewrite find_remove_ne in Hfind by congruence.
Qed.

Lemma find_set_ne_kept k k' v c :
  LRU.wf c → k' ≠ k →
  LRU.len c < LRU.size c ∨ is_Some (LRU.find k (LRU.items c)) →
  LRU.find k' (LRU.items (LRU.set k v c)) = LRU.find k' (LRU.items c).
Proof.
  intros Hwf Hne Hroom. rewrite set_items by done.
  destruct Hwf as (Hpos & Hlen & Hnd). rewrite take_ge.
  - simpl. rewrite bool_decide_eq_false_2 by congruence.
    apply find_remove_ne. congruence.
  - simpl. destruct Hroom as [Hlt | [v0 Hfind]].
    + pose proof (length_filter (λ p : Z * V, p.1 ≠ k) (LRU.items c)).
      unfold LRU.len in Hlt. unfold LRU.remove. lia.
    + apply find_Some_elem, (list_elem_of_fmap_2 fst) in Hfind.
      pose proof (remove_length_present k _ Hnd Hfind). lia.
Qed.

Lemma find_pop_eq k c : LRU.find k (LRU.items (LRU.pop k c).2) = None.
Proof.
  unfold LRU.pop. destruct (LRU.find k (LRU.items c)) eqn:Hfind; simpl; [|done].
  apply find_remove_eq.
Qed.

Lemma find_pop_ne k k' c :
  k' ≠ k → LRU.find k' (LRU.items (LRU.pop k c).2) = LRU.find k' (LRU.items c).
Proof.
  intros Hne. unfold LRU.pop.
  destruct (LRU.find k (LRU.items c)) eqn:Hfind; simpl; [|done].
  apply find_remove_ne. congruence.
Qed.

Lemma find_get k k' c :
  LRU.find k' (LRU.items (LRU.get k c).2) = LRU.find k' (LRU.items c).
Proof.
  unfold LRU.get. destruct (LRU.find k (LRU.items c)) eqn:Hfind; simpl; [|done].
  case_bool_decide as Hk; [by subst | by apply find_remove_ne].
Qed.

Lemma head_get k v c :
  LRU.find k (LRU.items c) = Some v → head (LRU.items (LRU.get k c).2) = Some (k, v).
Proof. intros Hfind. unfold LRU.get. by rewrite Hfind. Qed.

Lemma len_pop_present k c :
  LRU.wf c → is_Some (LRU.find k (LRU.items c)) →
  S (LRU.len (LRU.pop k c).2) = LRU.len c.
Proof.
  intros (_ & _ & Hnd) [v Hfind]. unfold LRU.pop, LRU.len. rewrite Hfind. simpl.
  apply remove_length_present; [done|].
  by apply find_Some_elem, (list_elem_of_fmap_2 fst) in Hfind.
Qed.
End lru_lookup.

Lemma get_gatt_services_cache_state address self :
  _gatt_services_cache (get_gatt_services_cache address self).2
  = (LRU.get address (_gatt_services_cache self)).2.
Proof.
  unfold get_gatt_services_cache. by destruct (LRU.get address (_gatt_services_cache self)).
Qed.

Lemma get_gatt_mtu_cache_state address self :
  _gatt_mtu_cache (get_gatt_mtu_cache address self).2
  = (LRU.get address (_gatt_mtu_cache self)).2.
Proof.
  unfold get_gatt_mtu_cache. by destruct (LRU.get address (_gatt_mtu_cache self)).
Qed.

Lemma clear_gatt_services_cache_state address self :
  _gatt_services_cache (clear_gatt_services_cache address self).2
  = (LRU.pop address (_gatt_services_cache self)).2.
Proof.
  unfold clear_gatt_services_cache.
  by destruct (LRU.pop address (_gatt_services_cache self)).
Qed.

Lemma clear_gatt_mtu_cache_state address self :
  _gatt_mtu_cache (clear_gatt_mtu_cache address self).2
  = (LRU.pop address (_gatt_mtu_cache self)).2.
Proof.
  unfold clear_gatt_mtu_cache. by destruct (LRU.pop address (_gatt_mtu_cache self)).
Qed.

(** Bring a statement about the cache methods down to the containers. *)
Ltac to_containers :=
  rewrite ?get_gatt_services_cache_result, ?get_gatt_mtu_cache_result;
  simpl;
  rewrite ?get_gatt_services_cache_state, ?get_gatt_mtu_cache_state,
    ?clear_gatt_services_cache_state, ?clear_gatt_mtu_cache_state.

(** X10.  On a registry reached from a new one, a lookup right after an
    assignment returns the assigned value, whether or not the address was
    cached and whether or not the cache was full. *)
Theorem gatt_cache_set_get (address : Z) (services : BleakGATTServiceCollection)
    (mtu : Z) (self : DomainData) (h : heap) :
  reachable (self, h) →
  (get_gatt_services_cache address (set_gatt_services_cache address services self).2).1
  = Return (Some services)
  ∧ (get_gatt_mtu_cache address (set_gatt_mtu_cache address mtu self).2).1
    = Return (Some mtu).
Proof.
  intros [[Hwfs Hwfm] _]%reachable_inv. simpl in Hwfs, Hwfm.
  split; to_containers; f_equal; by apply find_set_eq.
Qed.

Lemma gatt_cache_set_get_witness :
  let self := (run [SetGattServicesCache 10 100; SetGattMtuCache 10 23]
                 (DomainData_new, [])).1 in
  (get_gatt_services_cache 11 (set_gatt_services_cache 11 101 self).2).1
  = Return (Some 101)
  ∧ (get_gatt_mtu_cache 11 (set_gatt_mtu_cache 11 185 self).2).1
    = Return (Some 185%Z).
Proof.
  apply (gatt_cache_set_get 11 101 185 _ []).
  by exists [SetGattServicesCache 10 100; SetGattMtuCache 10 23], [].
Defined.

(** X11.  A clear removes the address it is given and nothing else: a
    lookup of that address finds nothing afterwards, and a lookup of any
    other address returns what it returned before. *)
Theorem gatt_cache_clear_only (address other : Z) (self : DomainData) :
  other ≠ address →
  (get_gatt_services_cache address (clear_gatt_services_cache address self).2).1
  = Return None
  ∧ (get_gatt_services_cache other (clear_gatt_services_cache address self).2).1
    = (get_gatt_services_cache other self).1
  ∧ (get_gatt_mtu_cache address (clear_gatt_mtu_cache address self).2).1
    = Return None
  ∧ (get_gatt_mtu_cache other (clear_gatt_mtu_cache address self).2).1
    = (get_gatt_mtu_cache other self).1.
Proof.
  intros Hne. split_and!; to_containers; f_equal;
    (apply find_pop_eq || by apply find_pop_ne).
Qed.

Lemma gatt_cache_clear_only_witness :
  let self := (run [SetGattServicesCache 10 100; SetGattServicesCache 11 101;
                    SetGattMtuCache 10 23; SetGattMtuCache 11 185]
                 (DomainData_new, [])).1 in
  (get_gatt_services_cache 10 (clear_gatt_services_cache 10 self).2).1 = Return None
  ∧ (get_gatt_services_cache 11 (clear_gatt_services_cache 10 self).2).1
    = Return (Some 101)
  ∧ (get_gatt_mtu_cache 10 (clear_gatt_mtu_cache 10 self).2).1 = Return None
  ∧ (get_gatt_mtu_cache 11 (clear_gatt_mtu_cache 10 self).2).1
    = Return (Some 185%Z).
Proof. intros self. apply (gatt_cache_clear_only 10 11 self). discriminate. Defined.

(** X12.  A lookup changes what no later lookup returns: after a lookup of
    any address, hit or miss, every address is still cached with the value
    it had, or still not cached. *)
Theorem gatt_cache_get_keeps_contents (address other : Z) (self : DomainData) :
  (get_gatt_services_cache other (get_gatt_services_cache address self).2).1
  = (get_gatt_services_cache other self).1
  ∧ (get_gatt_mtu_cache other (get_gatt_mtu_cache address self).2).1
    = (get_gatt_mtu_cache other self).1.
Proof. split; to_containers; f_equal; apply find_get. Qed.

(** X13.  On a registry reached from a new one, an assignment to one
    address never gives another address a value it did not have: a later
    lookup of the other address returns what it returned before, or
    nothing.  It returns what it returned before whenever the assigned
    address was already cached or the cache held fewer than 128 items. *)
Theorem gatt_cache_set_others (address other : Z) (services : BleakGATTServiceCollection)
    (mtu : Z) (self : DomainData) (h : heap) :
  reachable (self, h) →
  other ≠ address →
  ((get_gatt_services_cache other (set_gatt_services_cache address services self).2).1
   = (get_gatt_services_cache other self).1
   ∨ (get_gatt_services_cache other (set_gatt_services_cache address services self).2).1
     = Return None)
  ∧ (LRU.len (_gatt_services_cache self) < 128
     ∨ is_Some (LRU.find address (LRU.items (_gatt_services_cache self))) →
     (get_gatt_services_cache other (set_gatt_services_cache address services self).2).1
     = (get_gatt_services_cache other self).1)
  ∧ ((get_gatt_mtu_cache other (set_gatt_mtu_cache address mtu self).2).1
     = (get_gatt_mtu_cache other self).1
     ∨ (get_gatt_mtu_cache other (set_gatt_mtu_cache address mtu self).2).1
       = Return None)
  ∧ (LRU.len (_gatt_mtu_cache self) < 128
     ∨ is_Some (LRU.find address (LRU.items (_gatt_mtu_cache self))) →
     (get_gatt_mtu_cache other (set_gatt_mtu_cache address mtu self).2).1
     = (get_gatt_mtu_cache other self).1).
Proof.
  intros Hreach Hne.
  destruct (reachable_sizes _ Hreach) as [Hs Hm].
  destruct (reachable_inv _ Hreach) as [[Hwfs Hwfm] _].
  simpl in Hs, Hm, Hwfs, Hwfm. split_and!; to_containers.
  - destruct (LRU.find other (LRU.items (LRU.set address services _))) as [w|] eqn:Hw;
      [left | by right].
    apply find_set_ne_Some in Hw; [|done..]. by rewrite Hw.
  - intros Hroom. f_equal. apply find_set_ne_kept; [done..|]. by rewrite Hs.
  - destruct (LRU.find other (LRU.items (LRU.set address mtu _))) as [w|] eqn:Hw;
      [left | by right].
    apply find_set_ne_Some in Hw; [|done..]. by rewrite Hw.
  - intros Hroom. f_equal. apply find_set_ne_kept; [done..|]. by rewrite Hm.
Qed.

Lemma gatt_cache_set_others_witness :
  let self := (run [SetGattServicesCache 10 100; SetGattMtuCache 10 23]
                 (DomainData_new, [])).1 in
  (get_gatt_services_cache 10 (set_gatt_services_cache 11 101 self).2).1
  = Return (Some 100)
  ∧ (get_gatt_mtu_cache 10 (set_gatt_mtu_cache 11 185 self).2).1
    = Return (Some 23%Z).
Proof.
  intros self.
  assert (reachable (self, [])) as Hreach.
  { by exists [SetGattServicesCache 10 100; SetGattMtuCache 10 23], []. }
  destruct (gatt_cache_set_others 11 10 101 185 self [] Hreach)
    as (_ & Hs & _ & Hm); [discriminate|].
  split; [apply Hs | apply Hm]; left; vm_compute; lia.
Defined.

(** X14.  A lookup that hits counts as a use.  On a registry reached from a
    new one, after a lookup found an address, the next assignment to any
    other address does not drop it, even when the cache is full and the
    address was the least recently used one before the lookup. *)
Theorem gatt_cache_lookup_refreshes (address other : Z)
    (services services' : BleakGATTServiceCollection) (mtu mtu' : Z)
    (self : DomainData) (h : heap) :
  reachable (self, h) →
  other ≠ address →
  ((get_gatt_services_cache address self).1 = Return (Some services) →
   (get_gatt_services_cache address
      (set_gatt_services_cache other services'
         (get_gatt_services_cache address self).2).2).1
   = Return (Some services))
  ∧ ((get_gatt_mtu_cache address self).1 = Return (Some mtu) →
     (get_gatt_mtu_cache address
        (set_gatt_mtu_cache other mtu' (get_gatt_mtu_cache address self).2).2).1
     = Return (Some mtu)).
Proof.
  intros Hreach Hne.
  destruct (reachable_sizes _ Hreach) as [Hs Hm].
  destruct (reachable_inv _ Hreach) as [[Hwfs Hwfm] _].
  simpl in Hs, Hm, Hwfs, Hwfm. split; to_containers; intros [= Hfind]; f_equal.
  - apply set_after_front;
      [by apply wf_get | rewrite size_get, Hs; unfold MAX_CACHED_SERVICES; lia
      | done | by apply head_get].
  - apply set_after_front;
      [by apply wf_get | rewrite size_get, Hm; unfold MAX_CACHED_SERVICES; lia
      | done | by apply head_get].
Qed.

Lemma gatt_cache_lookup_refreshes_witness :
  let self :=
    (run (map (λ i, SetGattServicesCache (Z.of_nat i) i) (seq 1 128))
       (DomainData_new, [])).1 in
  (get_gatt_services_cache 1 (set_gatt_services_cache 200 7 self).2).1 = Return None
  ∧ (get_gatt_services_cache 1
       (set_gatt_services_cache 200 7 (get_gatt_services_cache 1 self).2).2).1
    = Return (Some 1).
Proof.
  intros self. split; [vm_compute; reflexivity|].
  assert (reachable (self, [])) as Hreach.
  { by exists (map (λ i, SetGattServicesCache (Z.of_nat i) i) (seq 1 128)), []. }
  destruct (gatt_cache_lookup_refreshes 1 200 1 7 0 0 self [] Hreach) as [Hs _];
    [discriminate|].
  apply Hs. vm_compute. reflexivity.
Defined.

(** X15.  On a registry reached from a new one, a clear of a cached address
    makes room: the assignment that follows it, to whatever address, drops
    nothing, so every other address is looked up as before the
    assignment. *)
Theorem gatt_cache_clear_makes_room (address assigned other : Z)
    (services : BleakGATTServiceCollection) (mtu : Z) (self : DomainData) (h : heap) :
  reachable (self, h) →
  other ≠ assigned →
  (is_Some (LRU.find address (LRU.items (_gatt_services_cache self))) →
   (get_gatt_services_cache other
      (set_gatt_services_cache assigned services
         (clear_gatt_services_cache address self).2).2).1
   = (get_gatt_services_cache other (clear_gatt_services_cache address self).2).1)
  ∧ (is_Some (LRU.find address (LRU.items (_gatt_mtu_cache self))) →
     (get_gatt_mtu_cache other
        (set_gatt_mtu_cache assigned mtu (clear_gatt_mtu_cache address self).2).2).1
     = (get_gatt_mtu_cache other (clear_gatt_mtu_cache address self).2).1).
Proof.
  intros Hreach Hne.
  destruct (reachable_sizes _ Hreach) as [Hs Hm].
  destruct (reachable_inv _ Hreach) as [[Hwfs Hwfm] _].
  simpl in Hs, Hm, Hwfs, Hwfm. split; to_containers; intros Hsome; f_equal.
  - apply find_set_ne_kept; [by apply wf_pop | done |]. left.
    pose proof (len_pop_present address _ Hwfs Hsome).
    destruct Hwfs as (_ & Hlen & _). unfold LRU.len in *. rewrite size_pop. lia.
  - apply find_set_ne_kept; [by apply wf_pop | done |]. left.
    pose proof (len_pop_present address _ Hwfm Hsome).
    destruct Hwfm as (_ & Hlen & _). unfold LRU.len in *. rewrite size_pop. lia.
Qed.

Lemma gatt_cache_clear_makes_room_witness :
  let self := (run [SetGattServicesCache 10 100; SetGattServicesCache 11 101;
                    SetGattMtuCache 10 23; SetGattMtuCache 11 185]
                 (DomainData_new, [])).1 in
  (get_gatt_services_cache 11
     (set_gatt_services_cache 12 102 (clear_gatt_services_cache 10 self).2).2).1
  = (get_gatt_services_cache 11 (clear_gatt_services_cache 10 self).2).1
  ∧ (get_gatt_mtu_cache 11
       (set_gatt_mtu_cache 12 512 (clear_gatt_mtu_cache 10 self).2).2).1
    = (get_gatt_mtu_cache 11 (clear_gatt_mtu_cache 10 self).2).1.
Proof.
  intros self.
  assert (reachable (self, [])) as Hreach.
  { by exists [SetGattServicesCache 10 100; SetGattServicesCache 11 101;
               SetGattMtuCache 10 23; SetGattMtuCache 11 185], []. }
  destruct (gatt_cache_clear_makes_room 10 12 11 102 512 self [] Hreach) as [Hs Hm];
    [discriminate|].
  split; [apply Hs | apply Hm]; by eexists.
Defined.

(** ** The store map of a reachable registry *)

(** X16.  On a registry reached from a new one, every handle of the store
    map names a store object of the object store, constructed with version 1
    and the key ["esphome."] followed by the identifier it is filed under,
    and no two identifiers share a handle. *)
Theorem stores_are_live (id : string) (r : ref) (self : DomainData) (h : heap) :
  reachable (self, h) →
  _stores self !! id = Some r →
  (∃ hass, h !! r = Some (ESPHomeStorageObj
      {| store_hass := hass; store_version := 1;
         store_key := "esphome." +:+ id;
         store_encoder := JSONEncoder |}))
  ∧ ∀ id', _stores self !! id' = Some r → id' = id.
Proof.
  intros [_ Hinv]%reachable_inv Hr. simpl in Hinv.
  destruct (Hinv id r Hr) as [hs Hobj]. split; [by exists hs|].
  intros id' Hr'. destruct (Hinv id' r Hr') as [hs' Hobj'].
  apply (store_for_inj hs' hs). congruence.
Qed.

Lemma stores_are_live_witness :
  let st := run [GetOrCreateStore 0 kitchen; GetOrCreateStore 0 garage;
                 GetOrCreateStore 0 kitchen_renamed]
              (DomainData_new, [HomeAssistantObj ∅]) in
  (∃ hass, st.2 !! 2 = Some (ESPHomeStorageObj
      {| store_hass := hass; store_version := 1;
         store_key := "esphome." +:+ "b2";
         store_encoder := JSONEncoder |}))
  ∧ ∀ id', _stores st.1 !! id' = Some 2 → id' = "b2".
Proof.
  intros st. apply (stores_are_live "b2" 2 st.1 st.2).
  - exists [GetOrCreateStore 0 kitchen; GetOrCreateStore 0 garage;
            GetOrCreateStore 0 kitchen_renamed], [HomeAssistantObj ∅].
    apply surjective_pairing.
  - reflexivity.
Defined.
